(** * p2: per-node health monitor and fake status store

    A shallow embedding of [pkg/watch/health.go] and of
    [pkg/store/consul/statusstore/statusstoretest/fake_status_store.go],
    with the properties of the design document that concern them. *)

From Stdlib Require Import ZArith.
From stdpp Require Import base gmap list strings pretty.

Local Open Scope Z_scope.

(** ** Go machine integers and the [time] package *)

Module GoTime.

Definition int64_min : Z := - 2 ^ 63.
Definition int64_max : Z := 2 ^ 63 - 1.

(** Two's-complement wrap-around of signed 64-bit arithmetic. *)
Definition wrap64 (z : Z) : Z := (z + 2 ^ 63) mod 2 ^ 64 - 2 ^ 63.

(** [uint64] wrap-around. *)
Definition wrapU64 (z : Z) : Z := z mod 2 ^ 64.

(** [time.Duration] is an [int64] count of nanoseconds. *)
Definition Duration := Z.

Definition Nanosecond : Duration := 1.
Definition Second : Duration := 1000000000.

Definition mulD (a b : Duration) : Duration := wrap64 (a * b).
(** Go's integer division truncates towards zero. *)
Definition divD (a b : Duration) : Duration := wrap64 (Z.quot a b).

(** [time.Time] as nanoseconds elapsed since Go's zero time. *)
Definition Time := Z.
Definition zeroTime : Time := 0.

(** [t.Sub(u)] saturates at the ends of the [Duration] range. *)
Definition Sub (t u : Time) : Duration :=
  Z.max int64_min (Z.min int64_max (t - u)).

(** [time.Since(t)] when the clock reads [now]. *)
Definition Since (now t : Time) : Duration := Sub now t.

End GoTime.

(** ** [pkg/health] *)

Module Health.

(** [type HealthState string]; its zero value is the empty string. *)
Definition HealthState := string.

(** Modelled from the spec: the constants of [pkg/health], which is not
    part of the source slice; section 6 gives the wire values
    "passing", "warning", "critical" and "unknown". *)
Definition Passing : HealthState := "passing".
Definition Warning : HealthState := "warning".
Definition Critical : HealthState := "critical".
Definition Unknown : HealthState := "unknown".

(** [health.Result], with the fields [health.go] reads and writes. *)
Record Result := mkResult {
  ID : string;
  Node : string;
  Service : string;
  Status : HealthState;
  Output : string
}.

(** [health.Result{}] *)
Definition zeroResult : Result := mkResult "" "" "" "" "".

Definition setID (r : Result) (v : string) : Result :=
  mkResult v (Node r) (Service r) (Status r) (Output r).
Definition setNode (r : Result) (v : string) : Result :=
  mkResult (ID r) v (Service r) (Status r) (Output r).
Definition setService (r : Result) (v : string) : Result :=
  mkResult (ID r) (Node r) v (Status r) (Output r).
Definition setStatus (r : Result) (v : HealthState) : Result :=
  mkResult (ID r) (Node r) (Service r) v (Output r).
Definition setOutput (r : Result) (v : string) : Result :=
  mkResult (ID r) (Node r) (Service r) (Status r) v.

End Health.

(** ** [pkg/pods] and [pkg/kp]: the collaborators of the monitor *)

(** Go's [error] values are represented by their [Error()] text; [None]
    is the nil error. *)
Definition error := string.

Module Pods.

(** [pods.Manifest], with the fields the monitor reads. *)
Record Manifest := mkManifest {
  Id : string;
  StatusPort : Z;
  StatusHTTP : bool
}.

End Pods.

Module Http.

(** What reading [resp.Body] to its end gives. *)
Inductive BodyRead :=
| ReadOk (body : string)
| ReadErr (e : error).

(** [http.Response] *)
Record Response := mkResponse {
  StatusCode : Z;
  Body : BodyRead
}.

(** [*http.Client] handle. *)
Definition Client := nat.

End Http.

Module Kp.

(** [kp.ManifestResult] *)
Record ManifestResult := mkManifestResult {
  Manifest : Pods.Manifest
}.

(** [kp.WatchResult]: the payload of a health record. *)
Record WatchResult := mkWatchResult {
  Service : string;
  Node : string;
  Id : string;
  Status : string;
  Output : string
}.

(** The health side of [kp.Store]: the records handed to [PutHealth],
    oldest first. *)
Definition Store := list WatchResult.

(** What one call of [store.PutHealth] answers: the time of the put and
    an error (the duration is dropped by the caller). *)
Definition PutAnswer : Type := GoTime.Time * option error.

Definition PutHealth (answer : PutAnswer) (res : WatchResult) (store : Store)
  : Store * PutAnswer :=
  (store ++ [res], answer).

(** What [store.ListPods] answers (the duration is dropped by the caller). *)
Definition ListAnswer : Type := list ManifestResult * option error.

(** What [kp.HttpStatusCheck] and [kp.HttpsStatusCheck] answer. *)
Definition ProbeAnswer : Type := option Http.Response * option error.

End Kp.

(** ** [pkg/watch/health.go] *)

Module Watch.

Import GoTime.

(** Duration between reality store checks *)
Definition POLL_KV_FOR_PODS : Duration := mulD 3 Second.

(** Duration between health checks *)
Definition HEALTHCHECK_INTERVAL : Duration := mulD 1 Second.

(** Healthcheck TTL *)
Definition TTL : Duration := mulD 60 Second.

(** A [chan bool] is named by the order of its creation. *)
Definition chan := nat.

(** [*logging.Logger] handle. *)
Definition Logger := nat.

Record PodWatch := mkPodWatch {
  manifest : Pods.Manifest;
  shutdownCh : chan;
  logger : Logger
}.

Record StatusCheck := mkStatusCheck {
  ID : string;
  Node : string;
  URI : string;
  HTTP : bool;
  Client : Http.Client;
  lastCheck : Time;
  lastStatus : Health.HealthState
}.

Definition set_lastCheck (sc : StatusCheck) (t : Time) : StatusCheck :=
  mkStatusCheck (ID sc) (Node sc) (URI sc) (HTTP sc) (Client sc) t (lastStatus sc).

Definition set_lastStatus (sc : StatusCheck) (s : Health.HealthState) : StatusCheck :=
  mkStatusCheck (ID sc) (Node sc) (URI sc) (HTTP sc) (Client sc) (lastCheck sc) s.

(** *** Probing *)

(** The network as the probe sees it: the answer of [kp.HttpsStatusCheck]
    ([true]) or [kp.HttpStatusCheck] ([false]) for a client and a URI. *)
Definition Network := bool → Http.Client → string → Kp.ProbeAnswer.

Definition Check (net : Network) (sc : StatusCheck) : Kp.ProbeAnswer :=
  if HTTP sc then net true (Client sc) (URI sc)
  else net false (Client sc) (URI sc).

Definition getBody (resp : Http.Response) : string * option error :=
  match Http.Body resp with
  | Http.ReadErr e => ("", Some e)
  | Http.ReadOk body => (body, None)
  end.

Definition resultFromCheck (resp : option Http.Response) (err : option error)
  : Health.Result * option error :=
  let res := Health.zeroResult in
  match err, resp with
  | Some e, _ =>
      let res := Health.setStatus res Health.Critical in
      let res := Health.setOutput res e in
      (res, None)
  | None, None =>
      let res := Health.setStatus res Health.Critical in
      (res, None)
  | None, Some resp =>
      let '(out, err) := getBody resp in
      let res := Health.setOutput res out in
      let res :=
        if (Http.StatusCode resp >=? 200) && (Http.StatusCode resp <? 300)
        then Health.setStatus res Health.Passing
        else Health.setStatus res Health.Critical in
      (res, err)
  end.

(** *** Publishing *)

Definition resToKPRes (res : Health.Result) : Kp.WatchResult :=
  Kp.mkWatchResult (Health.Service res) (Health.Node res) (Health.ID res)
                   (Health.Status res) (Health.Output res).

Definition writeToConsul (answer : Kp.PutAnswer) (res : Health.Result)
                         (store : Kp.Store) : Kp.Store * (Time * option error) :=
  let '(store', (timeOfPut, err)) := Kp.PutHealth answer (resToKPRes res) store in
  (store', (timeOfPut, err)).

(** [now] is what the clock reads when [time.Since] is called. *)
Definition updateNeeded (now : Time) (sc : StatusCheck) (res : Health.Result)
                        (ttl : Duration) : bool :=
  if bool_decide (lastStatus sc ≠ Health.Status res) then true
  else if Since now (lastCheck sc) >? mulD (divD ttl 4) Second then true
  else false.

(** What surrounds one health check: the network, the clock and the answer
    the KV store would give to a put. *)
Record TickEnv := mkTickEnv {
  network : Network;
  clock : Time;
  putAnswer : Kp.PutAnswer
}.

(** What one call of [checkHealth] leaves behind: the KV store, the
    callee's own [sc] as it is when the call returns, and the warnings
    logged. *)
Record Checked := mkChecked {
  storeAfter : Kp.Store;
  scAfter : StatusCheck;
  warned : list string
}.

Definition checkHealth (env : TickEnv) (store : Kp.Store) (sc : StatusCheck)
  : Checked :=
  let '(resp, err) := Check (network env) sc in
  let '(health, err) := resultFromCheck resp err in
  match err with
  | Some _ => mkChecked store sc []
  | None =>
      let health := Health.setID health (ID sc) in
      let health := Health.setNode health (Node sc) in
      let health := Health.setService health (ID sc) in
      if updateNeeded (clock env) sc health TTL then
        let '(store', (t, err)) := writeToConsul (putAnswer env) health store in
        let sc := set_lastCheck sc t in
        let sc := set_lastStatus sc (Health.Status health) in
        match err with
        | Some _ => mkChecked store' sc ["failed to write to consul"]
        | None => mkChecked store' sc []
        end
      else mkChecked store sc []
  end.

(** *** The per-pod loop *)

(** What the [select] of [MonitorHealth] picks at one iteration. *)
Inductive Selected :=
| TimerFired (env : TickEnv)
| ShutdownReceived (v : bool).

(** The state a running [MonitorHealth] carries from one iteration to the
    next: the store and its parameter [statusChecker]. [checkHealth]
    receives [statusChecker] by value, so what it assigns to its own [sc]
    stays in the callee. *)
Definition loopBody (env : TickEnv) (st : Kp.Store * StatusCheck)
  : Kp.Store * StatusCheck :=
  let '(store, statusChecker) := st in
  let c := checkHealth env store statusChecker in
  (storeAfter c, statusChecker).

Inductive MonitorRun :=
| Returned (store : Kp.Store) (pending : list Selected)
| Selecting (store : Kp.Store) (statusChecker : StatusCheck).

(** The store as a run of [MonitorHealth] leaves it. *)
Definition runStore (r : MonitorRun) : Kp.Store :=
  match r with
  | Returned store _ => store
  | Selecting store _ => store
  end.

Fixpoint MonitorHealth (events : list Selected) (store : Kp.Store)
                       (statusChecker : StatusCheck) : MonitorRun :=
  match events with
  | [] => Selecting store statusChecker
  | TimerFired env :: rest =>
      let '(store', statusChecker') := loopBody env (store, statusChecker) in
      MonitorHealth rest store' statusChecker'
  | ShutdownReceived _ :: rest => Returned store rest
  end.

(** *** The supervisor *)

(** A goroutine started by [go newPod.MonitorHealth(store, sc, shutdownCh)]. *)
Record Goroutine := mkGoroutine {
  gPod : PodWatch;
  gCheck : StatusCheck;
  gShutdown : chan
}.

(** The part of the process the supervisor acts on: the channels made so
    far, the values sent on channels (oldest first), the goroutines
    started (oldest first) and the warnings logged. *)
Record World := mkWorld {
  nextChan : chan;
  sent : list (chan * bool);
  started : list Goroutine;
  warnings : list string
}.

Definition emptyWorld : World := mkWorld 0%nat [] [] [].

(** [make(chan bool, 1)] *)
Definition makeChan (w : World) : chan * World :=
  (nextChan w, mkWorld (S (nextChan w)) (sent w) (started w) (warnings w)).

(** [ch <- v] *)
Definition send (ch : chan) (v : bool) (w : World) : World :=
  mkWorld (nextChan w) (sent w ++ [(ch, v)]) (started w) (warnings w).

(** [go ...] *)
Definition spawn (g : Goroutine) (w : World) : World :=
  mkWorld (nextChan w) (sent w) (started w ++ [g]) (warnings w).

(** [logger...Warningln(msg)] *)
Definition warn (msg : string) (w : World) : World :=
  mkWorld (nextChan w) (sent w) (started w) (warnings w ++ [msg]).

(** [pod.manifest.Id] and [man.Manifest.Id], the keys of the comparison. *)
Definition podId (pod : PodWatch) : string := Pods.Id (manifest pod).
Definition listedId (man : Kp.ManifestResult) : string :=
  Pods.Id (Kp.Manifest man).

(** The inner loop of the first pass: is [pod]'s id listed in [reality]? *)
Fixpoint inReality (reality : list Kp.ManifestResult) (pod : PodWatch) : bool :=
  match reality with
  | [] => false
  | man :: rest =>
      if bool_decide (listedId man = podId pod)
      then true
      else inReality rest pod
  end.

(** The inner loop of the second pass: is [man]'s id without a watch in
    [newCurrent]? *)
Fixpoint missing (newCurrent : list PodWatch) (man : Kp.ManifestResult) : bool :=
  match newCurrent with
  | [] => true
  | pod :: rest =>
      if bool_decide (listedId man = podId pod)
      then false
      else missing rest man
  end.

(** First pass: for pod in current, if pod not in reality: kill. *)
Fixpoint killPass (reality : list Kp.ManifestResult) (current : list PodWatch)
                  (w : World) (newCurrent : list PodWatch)
  : World * list PodWatch :=
  match current with
  | [] => (w, newCurrent)
  | pod :: rest =>
      if inReality reality pod
      then killPass reality rest w (newCurrent ++ [pod])
      else killPass reality rest (send (shutdownCh pod) true w) newCurrent
  end.

(** [fmt.Sprintf("%s:%d", node, port)] *)
Definition uriOf (node : string) (port : Z) : string :=
  node +:+ ":" +:+ pretty port.

(** Second pass: for pod in reality, if pod not in current: create a
    podwatch and append it to current. *)
Fixpoint addPass (client : Http.Client) (node : string) (lg : Logger)
                 (reality : list Kp.ManifestResult)
                 (w : World) (newCurrent : list PodWatch)
  : World * list PodWatch :=
  match reality with
  | [] => (w, newCurrent)
  | man :: rest =>
      if missing newCurrent man
         && bool_decide (Pods.StatusPort (Kp.Manifest man) ≠ 0)
      then
        let '(ch, w) := makeChan w in
        let newPod := mkPodWatch (Kp.Manifest man) ch lg in
        let sc := mkStatusCheck
                    (Pods.Id (manifest newPod))
                    node
                    (uriOf node (Pods.StatusPort (manifest newPod)))
                    (Pods.StatusHTTP (manifest newPod))
                    client
                    zeroTime
                    "" in
        let w := spawn (mkGoroutine newPod sc (shutdownCh newPod)) w in
        addPass client node lg rest w (newCurrent ++ [newPod])
      else addPass client node lg rest w newCurrent
  end.

Definition updatePods (client : Http.Client) (current : list PodWatch)
                      (reality : list Kp.ManifestResult) (node : string)
                      (lg : Logger) (w : World) : World * list PodWatch :=
  let '(w, newCurrent) := killPass reality current w [] in
  addPass client node lg reality w newCurrent.

(** [listing] is what [store.ListPods(kp.RealityPath(node))] answers. *)
Definition updateHealthMonitors (listing : Kp.ListAnswer) (client : Http.Client)
                                (watchedPods : list PodWatch) (node : string)
                                (lg : Logger) (w : World)
  : World * list PodWatch :=
  let '(reality, err) := listing in
  let w := match err with
           | Some _ => warn "failed to get pods from reality store" w
           | None => w
           end in
  updatePods client watchedPods reality node lg w.

(** The supervisor's loop: [MonitorPodHealth] after its set-up, over the
    answers of the successive listings. The first listing is the call
    before the loop, each further one a firing of the poll timer. *)
Fixpoint supervise (listings : list Kp.ListAnswer) (client : Http.Client)
                   (node : string) (lg : Logger)
                   (w : World) (pods : list PodWatch) : World * list PodWatch :=
  match listings with
  | [] => (w, pods)
  | listing :: rest =>
      let '(w, pods) := updateHealthMonitors listing client pods node lg w in
      supervise rest client node lg w pods
  end.

(** *** [MonitorPodHealth] *)

(** [*preparer.PreparerConfig], with what [MonitorPodHealth] asks of it:
    whether [GetStore] and [GetClient] succeed, and the node's name. *)
Record PreparerConfig := mkPreparerConfig {
  GetStore : option error;
  GetClient : Http.Client + error;
  NodeName : string
}.

(** What the [select] of [MonitorPodHealth] picks at one iteration: the
    poll timer, with the answer of the listing that follows, or the
    shutdown channel. *)
Inductive Polled :=
| PollFired (listing : Kp.ListAnswer)
| Shutdown.

Inductive SupervisorRun :=
| Fatal (msg : string)
| Left (w : World) (pods : list PodWatch)
| Polling (w : World) (pods : list PodWatch).

Fixpoint pollLoop (events : list Polled) (client : Http.Client) (node : string)
                  (lg : Logger) (w : World) (pods : list PodWatch)
  : SupervisorRun :=
  match events with
  | [] => Polling w pods
  | PollFired listing :: rest =>
      let '(w, pods) := updateHealthMonitors listing client pods node lg w in
      pollLoop rest client node lg w pods
  | Shutdown :: rest => Left w pods
  end.

(** [logger.Fatalf] ends the process. [first] is the answer of the
    listing made before the loop. *)
Definition MonitorPodHealth (config : PreparerConfig) (lg : Logger)
                            (first : Kp.ListAnswer) (events : list Polled)
                            (w : World) : SupervisorRun :=
  match GetStore config with
  | Some _ => Fatal "error creating health monitor KV store"
  | None =>
      match GetClient config with
      | inr _ => Fatal "failed to get http client for this preparer"
      | inl client =>
          let node := NodeName config in
          let pods := [] in
          let '(w, pods) := updateHealthMonitors first client pods node lg w in
          pollLoop events client node lg w pods
      end
  end.

(** *** Notions used in the properties below *)

(** The checker [updatePods] builds for a manifest. *)
Definition checkerOf (client : Http.Client) (node : string)
                     (m : Pods.Manifest) : StatusCheck :=
  mkStatusCheck (Pods.Id m) node (uriOf node (Pods.StatusPort m))
                (Pods.StatusHTTP m) client zeroTime "".

(** The goroutine [updatePods] starts for a watch it makes. *)
Definition goroutineOf (client : Http.Client) (node : string) (pod : PodWatch)
  : Goroutine :=
  mkGoroutine pod (checkerOf client node (manifest pod)) (shutdownCh pod).

(** The record a health check of [sc] in [env] has to publish: none when
    reading the body failed, else the result under the checker's name. *)
Definition recordOf (sc : StatusCheck) (env : TickEnv) : option Kp.WatchResult :=
  match resultFromCheck (Check (network env) sc).1 (Check (network env) sc).2 with
  | (_, Some _) => None
  | (res, None) =>
      Some (Kp.mkWatchResult (ID sc) (Node sc) (ID sc)
                             (Health.Status res) (Health.Output res))
  end.

(** The watch the second pass makes for a listed manifest it finds
    without a watch, and the world it leaves: one more channel, one more
    goroutine. *)
Definition newPodOf (lg : Logger) (w : World) (man : Kp.ManifestResult)
  : PodWatch :=
  mkPodWatch (Kp.Manifest man) (nextChan w) lg.

Definition worldWith (client : Http.Client) (node : string) (lg : Logger)
                     (w : World) (man : Kp.ManifestResult) : World :=
  spawn (mkGoroutine
           (newPodOf lg w man)
           (mkStatusCheck (listedId man) node
              (uriOf node (Pods.StatusPort (Kp.Manifest man)))
              (Pods.StatusHTTP (Kp.Manifest man)) client zeroTime "")
           (nextChan w))
        (makeChan w).2.

(** A shutdown channel has room for one value. The supervisor never
    sends a second one as long as the watches it holds have channels of
    their own, made before and not yet sent on. *)
Definition channels_ok (w : World) (pods : list PodWatch) : Prop :=
  NoDup (shutdownCh <$> pods) ∧
  Forall (λ pod, (shutdownCh pod < nextChan w)%nat ∧
                 shutdownCh pod ∉ (sent w).*1) pods ∧
  NoDup (sent w).*1 ∧
  Forall (λ ch, (ch < nextChan w)%nat) (sent w).*1.

End Watch.

(** ** [pkg/store/consul/statusstore/statusstoretest/fake_status_store.go] *)

Module StatusStoreTest.

Import GoTime.

(** [statusstore.Status] is a byte slice. *)
Definition Status := list Byte.byte.

(** Just a convenient index into the status map that models the interface
    arguments. [ResourceType], [ResourceID] and [Namespace] are string
    types. *)
Record StatusIdentifier := mkStatusIdentifier {
  resourceType : string;
  resourceID : string;
  namespace : string
}.

#[global] Instance StatusIdentifier_eq_dec : EqDecision StatusIdentifier.
Proof. solve_decision. Defined.

#[global] Instance StatusIdentifier_countable : Countable StatusIdentifier.
Proof.
  refine (inj_countable'
            (λ s, (resourceType s, resourceID s, namespace s))
            (λ t, mkStatusIdentifier t.1.1 t.1.2 t.2) _).
  by intros [].
Defined.

(** [fmt.Sprintf("status/%s/%s/%s", ...)] *)
Definition String (s : StatusIdentifier) : string :=
  "status/" +:+ resourceType s +:+ "/" +:+ resourceID s +:+ "/" +:+ namespace s.

Record FakeStatusStore := mkFakeStatusStore {
  Statuses : gmap StatusIdentifier Status;
  LastIndex : Z
}.

(** The errors the fake store hands out: [statusstore.NoStatusError] and
    the plain errors of [errors.New] and [util.Errorf]. *)
Inductive storeError :=
| NoStatusError (Key : string)
| PlainError (msg : string).

(** [api.QueryMeta], with the field the fake store fills in. *)
Record QueryMeta := mkQueryMeta {
  QLastIndex : Z
}.

Definition NewFake : FakeStatusStore :=
  mkFakeStatusStore ∅ 1234.

Definition SetStatus (s : FakeStatusStore) (t id ns : string) (status : Status)
  : FakeStatusStore * option storeError :=
  let identifier := mkStatusIdentifier t id ns in
  (mkFakeStatusStore (<[identifier := status]> (Statuses s))
                     (wrapU64 (LastIndex s + 1)),
   None).

(** [ctx] carries nothing the fake store reads and is left out. *)
Definition CASStatus (s : FakeStatusStore) (t id ns : string) (status : Status)
                     (modifyIndex : Z) : FakeStatusStore * option storeError :=
  (s, Some (PlainError
     "CASStatus uses transactions which requires a real consul instance")).

Definition SetTxn (s : FakeStatusStore) (t id ns : string) (status : Status)
  : FakeStatusStore * option storeError :=
  (s, Some (PlainError
     "SetTxn uses transactions which requires a real consul instance")).

Definition GetStatus (s : FakeStatusStore) (t id ns : string)
  : Status * QueryMeta * option storeError :=
  let identifier := mkStatusIdentifier t id ns in
  match Statuses s !! identifier with
  | None =>
      ([], mkQueryMeta (LastIndex s), Some (NoStatusError (String identifier)))
  | Some status =>
      (status, mkQueryMeta (LastIndex s), None)
  end.

(** [WatchStatus] takes the lock once per turn of its loop and once more
    inside [GetStatus]; other goroutines may write in between. [seen] is
    the state of the store at each successive taking of the lock. [None]:
    the loop is still turning when [seen] runs out. *)
Fixpoint WatchStatus (seen : list FakeStatusStore) (t id ns : string)
                     (waitIndex : Z)
  : option (Status * QueryMeta * option storeError) :=
  match seen with
  | [] => None
  | s :: later =>
      if waitIndex <=? LastIndex s then
        match later with
        | [] => None
        | s' :: _ => Some (GetStatus s' t id ns)
        end
      else WatchStatus later t id ns waitIndex
  end.

Definition DeleteStatus (s : FakeStatusStore) (t id ns : string)
  : FakeStatusStore * option storeError :=
  let identifier := mkStatusIdentifier t id ns in
  (mkFakeStatusStore (delete identifier (Statuses s))
                     (wrapU64 (LastIndex s + 1)),
   None).

Definition DeleteStatusTxn (s : FakeStatusStore) (t id ns : string)
  : FakeStatusStore * option storeError :=
  (s, Some (PlainError
     "DeleteStatusTxn() is not implemented on FakeStatusStore. Use a real consul-backed status store if you need this")).

(** [for identifier, status := range s.Statuses]: Go visits the entries
    of a map once each, in an order of its choosing. [visited] is the
    order of one such walk over the statuses of [s]. *)
Definition rangeOf (s : FakeStatusStore)
                   (visited : list (StatusIdentifier * Status)) : Prop :=
  visited ≡ₚ map_to_list (Statuses s).

Definition GetAllStatusForResource (visited : list (StatusIdentifier * Status))
                                   (t id : string)
  : gmap string Status * option storeError :=
  (foldl (λ ret '(identifier, status),
            if bool_decide (resourceType identifier = t)
               && bool_decide (resourceID identifier = id)
            then <[namespace identifier := status]> ret
            else ret)
         ∅ visited,
   None).

(** [ret[id] == nil] holds of an id without entry; the inner map is made
    then, and written to in either case. *)
Definition GetAllStatusForResourceType
             (visited : list (StatusIdentifier * Status)) (t : string)
  : gmap string (gmap string Status) * option storeError :=
  (foldl (λ ret '(identifier, status),
            if bool_decide (resourceType identifier = t)
            then
              let inner := match ret !! resourceID identifier with
                           | None => ∅
                           | Some m => m
                           end in
              <[resourceID identifier :=
                  <[namespace identifier := status]> inner]> ret
            else ret)
         ∅ visited,
   None).

(** *** Notions used in the properties below *)

(** The calls a user of the store can make, and the store after a run of
    them. *)
Inductive Call :=
| CallSet (t id ns : string) (status : Status)
| CallCAS (t id ns : string) (status : Status) (modifyIndex : Z)
| CallSetTxn (t id ns : string) (status : Status)
| CallGet (t id ns : string)
| CallDelete (t id ns : string)
| CallDeleteTxn (t id ns : string).

Definition call (s : FakeStatusStore) (c : Call) : FakeStatusStore :=
  match c with
  | CallSet t id ns status => (SetStatus s t id ns status).1
  | CallCAS t id ns status modifyIndex =>
      (CASStatus s t id ns status modifyIndex).1
  | CallSetTxn t id ns status => (SetTxn s t id ns status).1
  | CallGet t id ns => s
  | CallDelete t id ns => (DeleteStatus s t id ns).1
  | CallDeleteTxn t id ns => (DeleteStatusTxn s t id ns).1
  end.

Definition calls (s : FakeStatusStore) (cs : list Call) : FakeStatusStore :=
  foldl call s cs.

(** The calls that write: [SetStatus] and [DeleteStatus]. *)
Definition writes (c : Call) : bool :=
  match c with
  | CallSet _ _ _ _ | CallDelete _ _ _ => true
  | _ => false
  end.

Import Stdlib.Strings.Ascii.

(** Does a string hold the separator of the key string? *)
Fixpoint hasSlash (x : string) : bool :=
  match x with
  | EmptyString => false
  | String.String c rest =>
      if Ascii.eqb c "/"%char then true else hasSlash rest
  end.

End StatusStoreTest.

(** ** A node with one pod, used in the examples below *)

Module Scenario.

Import GoTime Watch.

Definition webManifest : Pods.Manifest := Pods.mkManifest "web" 8080 false.

Definition webListing : list Kp.ManifestResult := [Kp.mkManifestResult webManifest].

(** The watch and the checker [updatePods] builds for [webManifest] on
    node "node1" when no channel has been made yet. *)
Definition webPod : PodWatch := mkPodWatch webManifest 0%nat 7%nat.

Definition webCheck : StatusCheck :=
  mkStatusCheck "web" "node1" "node1:8080" false 3%nat zeroTime "".

(** A service that answers every probe with 200 and the body "ok". *)
Definition netOk : Network :=
  λ _ _ _, (Some (Http.mkResponse 200 (Http.ReadOk "ok")), None).

(** Some instant of the year 2015, and the seconds after it. *)
Definition t0 : Time := 63555555555000000000.

Definition at_second (n : Z) : Time := t0 + n * Second.

(** A health check at second [n] whose put the store accepts at once. *)
Definition tickOk (n : Z) : TickEnv :=
  mkTickEnv netOk (at_second n) (at_second n, None).

(** A health check at second [n] whose put the store refuses. *)
Definition tickPutFails (n : Z) : TickEnv :=
  mkTickEnv netOk (at_second n) (zeroTime, Some "kv unavailable").

Definition webRecord : Kp.WatchResult :=
  Kp.mkWatchResult "web" "node1" "web" "passing" "ok".

End Scenario.

(** * Properties *)

Import GoTime.

(** ** Probing: [resultFromCheck] *)

Section ResultFromCheck.

Import Watch.

Lemma getBody_ok code body :
  getBody (Http.mkResponse code (Http.ReadOk body)) = (body, None).
Proof. reflexivity. Qed.

Lemma getBody_err code e :
  getBody (Http.mkResponse code (Http.ReadErr e)) = ("", Some e).
Proof. reflexivity. Qed.

(** The status [resultFromCheck] gives to a response is decided by its
    status code alone, whatever reading the body gave. *)
Lemma resultFromCheck_status resp :
  Health.Status (resultFromCheck (Some resp) None).1 =
  if bool_decide (200 ≤ Http.StatusCode resp ∧ Http.StatusCode resp < 300)
  then Health.Passing else Health.Critical.
Proof.
  unfold resultFromCheck. destruct (getBody resp) as [out err].
  case_bool_decide as Hr.
  - destruct Hr as [H1 H2].
    apply Z.geb_le in H1. apply Z.ltb_lt in H2. by rewrite H1, H2.
  - destruct (Z.geb_spec (Http.StatusCode resp) 200) as [H1|H1]; [|done].
    destruct (Z.ltb_spec (Http.StatusCode resp) 300) as [H2|H2]; [|done].
    exfalso. apply Hr. lia.
Qed.

(** C6. [resultFromCheck] maps a probe outcome as follows: with a
    transport error the status is Critical and the output is the error
    text; with neither an error nor a response the status is Critical and
    the output is empty; a response whose status code lies in [200,300)
    gives Passing and any other response Critical, the output being the
    body; and when reading the body fails the result keeps the status the
    status code gives, with an empty output (the read error is returned
    beside it). *)
Theorem resultFromCheck_spec :
  (∀ resp e,
     resultFromCheck resp (Some e) =
     (Health.mkResult "" "" "" Health.Critical e, None)) ∧
  resultFromCheck None None =
    (Health.mkResult "" "" "" Health.Critical "", None) ∧
  (∀ code body,
     resultFromCheck (Some (Http.mkResponse code (Http.ReadOk body))) None =
     (Health.mkResult "" "" ""
        (if bool_decide (200 ≤ code ∧ code < 300)
         then Health.Passing else Health.Critical)
        body,
      None)) ∧
  (∀ code e,
     resultFromCheck (Some (Http.mkResponse code (Http.ReadErr e))) None =
     (Health.mkResult "" "" ""
        (if bool_decide (200 ≤ code ∧ code < 300)
         then Health.Passing else Health.Critical)
        "",
      Some e)).
Proof.
  split; [|split; [|split]].
  - intros [resp|] e; reflexivity.
  - reflexivity.
  - intros code body.
    pose proof (resultFromCheck_status
                  (Http.mkResponse code (Http.ReadOk body))) as Hs.
    revert Hs. unfold resultFromCheck. rewrite getBody_ok. cbn.
    destruct ((code >=? 200) && (code <? 300)); cbn; by intros <-.
  - intros code e.
    pose proof (resultFromCheck_status
                  (Http.mkResponse code (Http.ReadErr e))) as Hs.
    revert Hs. unfold resultFromCheck. rewrite getBody_err. cbn.
    destruct ((code >=? 200) && (code <? 300)); cbn; by intros <-.
Qed.

Example resultFromCheck_200 :
  resultFromCheck (Some (Http.mkResponse 200 (Http.ReadOk "ok"))) None =
  (Health.mkResult "" "" "" "passing" "ok", None).
Proof. reflexivity. Qed.

Example resultFromCheck_300 :
  resultFromCheck (Some (Http.mkResponse 300 (Http.ReadOk "moved"))) None =
  (Health.mkResult "" "" "" "critical" "moved", None).
Proof. reflexivity. Qed.

Example resultFromCheck_refused :
  resultFromCheck None (Some "connection refused") =
  (Health.mkResult "" "" "" "critical" "connection refused", None).
Proof. reflexivity. Qed.

End ResultFromCheck.

(** ** Publishing: [updateNeeded], [checkHealth] and the per-pod loop *)

Section Publishing.

Import Watch.

(** The bound [updateNeeded] compares the elapsed time with, for the TTL
    of the package: [ttl/4] is already a count of nanoseconds, and its
    product with [time.Second] leaves the range of [int64]. *)
Lemma updateNeeded_bound :
  divD TTL 4 = 15 * Second ∧
  mulD (divD TTL 4) Second = -3446744073709551616.
Proof. split; reflexivity. Qed.

(** Hence no elapsed time that is not negative is below the bound. *)
Lemma updateNeeded_TTL now sc res :
  lastCheck sc ≤ now → updateNeeded now sc res TTL = true.
Proof.
  intros Hle. unfold updateNeeded.
  destruct (bool_decide (lastStatus sc ≠ Health.Status res)); [done|].
  destruct updateNeeded_bound as [_ ->].
  assert (0 ≤ Since now (lastCheck sc)) as Hs.
  { unfold Since, Sub, int64_min, int64_max. lia. }
  destruct (Z.gtb_spec (Since now (lastCheck sc)) (-3446744073709551616));
    [done | lia].
Qed.

(** What [checkHealth] hands to the store. *)
Lemma checkHealth_store env store sc :
  storeAfter (checkHealth env store sc) = store ∨
  ∃ res, storeAfter (checkHealth env store sc) =
           store ++ [resToKPRes
                       (Health.setService
                          (Health.setNode (Health.setID res (ID sc)) (Node sc))
                          (ID sc))].
Proof.
  unfold checkHealth.
  destruct (Check (network env) sc) as [resp err].
  destruct (resultFromCheck resp err) as [health [e|]]; [by left|].
  destruct (updateNeeded _ _ _ _); [|by left].
  right. exists health.
  unfold writeToConsul, Kp.PutHealth.
  destruct (putAnswer env) as [t [e|]]; reflexivity.
Qed.

(** [MonitorHealth] passes its own [statusChecker] on to the next turn
    of the loop as it received it. *)
Lemma loopBody_statusChecker env store sc :
  (loopBody env (store, sc)).2 = sc.
Proof. reflexivity. Qed.

(** C3. The design has a health record published if and only if the
    status differs from the last one or more than TTL/4 = 15 seconds have
    passed since the last check. The code publishes outside these cases:
    one second after a check that found "passing", a probe that finds
    "passing" again is published, [updateNeeded] answering true. *)
Theorem updateNeeded_one_second_later :
  let sc := set_lastStatus
              (set_lastCheck Scenario.webCheck (Scenario.at_second 0))
              Health.Passing in
  let env := Scenario.tickOk 1 in
  let res := (resultFromCheck (Check (network env) sc).1
                              (Check (network env) sc).2).1 in
  Health.Status res = lastStatus sc ∧
  Since (clock env) (lastCheck sc) = 1 * Second ∧
  updateNeeded (clock env) sc res TTL = true ∧
  storeAfter (checkHealth env [] sc) = [Scenario.webRecord].
Proof. cbv zeta. repeat split; vm_compute; reflexivity. Qed.

(** C4. The design has the monitor keep the time and the status of a
    successful publish for the following ticks. In the code the publish
    of the first tick succeeds and the callee's copy of the checker
    records it, but the loop goes on with the checker it started with:
    the second tick runs with the zero time and the empty status, and
    publishes again. *)
Theorem MonitorHealth_forgets_publish :
  let env := Scenario.tickOk 1 in
  let c := checkHealth env [] Scenario.webCheck in
  storeAfter c = [Scenario.webRecord] ∧
  (putAnswer env).2 = None ∧
  lastCheck (scAfter c) = Scenario.at_second 1 ∧
  lastStatus (scAfter c) = Health.Passing ∧
  loopBody env ([], Scenario.webCheck) =
    ([Scenario.webRecord], Scenario.webCheck) ∧
  lastCheck (loopBody env ([], Scenario.webCheck)).2 = zeroTime ∧
  lastStatus (loopBody env ([], Scenario.webCheck)).2 = "" ∧
  MonitorHealth [TimerFired (Scenario.tickOk 1); TimerFired (Scenario.tickOk 2)]
                [] Scenario.webCheck =
    Selecting [Scenario.webRecord; Scenario.webRecord] Scenario.webCheck.
Proof. cbv zeta. repeat split; vm_compute; reflexivity. Qed.

(** After a publish the store refused, the next tick publishes again. *)
Example MonitorHealth_retries_failed_put :
  MonitorHealth [TimerFired (Scenario.tickPutFails 1);
                 TimerFired (Scenario.tickOk 2)]
                [] Scenario.webCheck =
    Selecting [Scenario.webRecord; Scenario.webRecord] Scenario.webCheck.
Proof. vm_compute. reflexivity. Qed.

(** C10. Every health record a per-pod monitor hands to the KV store
    has its Service and its Id equal to the ID of the monitor's
    StatusCheck and its Node equal to the StatusCheck's Node: whatever
    the monitor's [select] picks, the store it leaves is the store it
    found followed by records of that form. *)
Theorem MonitorHealth_records events store sc :
  ∃ written,
    runStore (MonitorHealth events store sc) = store ++ written ∧
    Forall (λ r, Kp.Service r = ID sc ∧ Kp.Id r = ID sc ∧ Kp.Node r = Node sc)
           written.
Proof.
  revert store. induction events as [|[env|v] rest IH]; intros store.
  - exists []. by rewrite app_nil_r.
  - cbn [MonitorHealth loopBody].
    destruct (checkHealth_store env store sc) as [-> | [res ->]].
    + apply IH.
    + destruct (IH (store ++ [resToKPRes
                       (Health.setService
                          (Health.setNode (Health.setID res (ID sc)) (Node sc))
                          (ID sc))])) as (written & -> & Hall).
      eexists (_ :: written). rewrite <- app_assoc. split; [reflexivity|].
      constructor; [by cbn | done].
  - exists []. by rewrite app_nil_r.
Qed.

(** The property is not an empty one: the monitor of the example writes. *)
Example MonitorHealth_records_web :
  runStore (MonitorHealth [TimerFired (Scenario.tickOk 1)] [] Scenario.webCheck)
  = [Kp.mkWatchResult (ID Scenario.webCheck) (Node Scenario.webCheck)
                      (ID Scenario.webCheck) Health.Passing "ok"].
Proof. vm_compute. reflexivity. Qed.

End Publishing.

(** ** The fake status store *)

Section FakeStore.

Import StatusStoreTest.

(** The store of the examples: a fresh fake store in which the status of
    pod "web" has been set once. *)
Lemma web_store :
  (SetStatus NewFake "pod" "web" "ns" [Byte.x01]).1 =
  mkFakeStatusStore {[ mkStatusIdentifier "pod" "web" "ns" := [Byte.x01] ]} 1235.
Proof.
  unfold SetStatus, NewFake. cbn. f_equal.
Qed.

(** C7. For a key absent from the fake store, [GetStatus] answers with
    the empty status, a NoStatusError carrying the key string
    status/<type>/<id>/<namespace>, and query metadata whose LastIndex is
    the store's; for a key that is present it answers with the stored
    status, the same metadata and no error. *)
Theorem GetStatus_spec s t id ns :
  (Statuses s !! mkStatusIdentifier t id ns = None →
   GetStatus s t id ns =
     ([], mkQueryMeta (LastIndex s),
      Some (NoStatusError ("status/" +:+ t +:+ "/" +:+ id +:+ "/" +:+ ns)))) ∧
  (∀ status,
     Statuses s !! mkStatusIdentifier t id ns = Some status →
     GetStatus s t id ns = (status, mkQueryMeta (LastIndex s), None)).
Proof.
  split.
  - intros Hnone. unfold GetStatus. by rewrite Hnone.
  - intros status Hsome. unfold GetStatus. by rewrite Hsome.
Qed.

Lemma GetStatus_spec_witness :
  GetStatus (mkFakeStatusStore
               {[ mkStatusIdentifier "pod" "web" "ns" := [Byte.x01] ]} 1235)
            "pod" "db" "ns" =
    ([], mkQueryMeta 1235, Some (NoStatusError "status/pod/db/ns")) ∧
  GetStatus (mkFakeStatusStore
               {[ mkStatusIdentifier "pod" "web" "ns" := [Byte.x01] ]} 1235)
            "pod" "web" "ns" =
    ([Byte.x01], mkQueryMeta 1235, None).
Proof.
  split.
  - apply (proj1 (GetStatus_spec
                    (mkFakeStatusStore
                       {[ mkStatusIdentifier "pod" "web" "ns" := [Byte.x01] ]}
                       1235)
                    "pod" "db" "ns")).
    vm_compute. reflexivity.
  - apply (proj2 (GetStatus_spec
                    (mkFakeStatusStore
                       {[ mkStatusIdentifier "pod" "web" "ns" := [Byte.x01] ]}
                       1235)
                    "pod" "web" "ns")).
    vm_compute. reflexivity.
Defined.

(** C8. The operations of the fake store that need a transaction,
    [CASStatus], [SetTxn] and [DeleteStatusTxn], each return an error and
    leave the statuses and the last index of the store as they were. *)
Theorem txn_operations_refused s t id ns status modifyIndex :
  (Statuses (CASStatus s t id ns status modifyIndex).1 = Statuses s ∧
   LastIndex (CASStatus s t id ns status modifyIndex).1 = LastIndex s ∧
   is_Some (CASStatus s t id ns status modifyIndex).2) ∧
  (Statuses (SetTxn s t id ns status).1 = Statuses s ∧
   LastIndex (SetTxn s t id ns status).1 = LastIndex s ∧
   is_Some (SetTxn s t id ns status).2) ∧
  (Statuses (DeleteStatusTxn s t id ns).1 = Statuses s ∧
   LastIndex (DeleteStatusTxn s t id ns).1 = LastIndex s ∧
   is_Some (DeleteStatusTxn s t id ns).2).
Proof. repeat split; cbn; eauto. Qed.

(** By contrast the plain write goes through and advances the index. *)
Example SetStatus_advances :
  LastIndex (SetStatus NewFake "pod" "web" "ns" [Byte.x01]).1 = 1235 ∧
  Statuses (SetStatus NewFake "pod" "web" "ns" [Byte.x01]).1
    !! mkStatusIdentifier "pod" "web" "ns" = Some [Byte.x01].
Proof. split; [reflexivity|]. cbn. apply lookup_insert_eq. Qed.

(** *** [WatchStatus] *)

(** While the store's index is below [waitIndex] the loop turns on. *)
Lemma WatchStatus_waits s later t id ns waitIndex :
  LastIndex s < waitIndex →
  WatchStatus (s :: later) t id ns waitIndex = WatchStatus later t id ns waitIndex.
Proof.
  intros Hlt. cbn [WatchStatus].
  destruct (Z.leb_spec waitIndex (LastIndex s)); [lia | done].
Qed.

(** Once the index has reached [waitIndex] the loop hands over to
    [GetStatus]. *)
Lemma WatchStatus_fires s s' rest t id ns waitIndex :
  waitIndex ≤ LastIndex s →
  WatchStatus (s :: s' :: rest) t id ns waitIndex = Some (GetStatus s' t id ns).
Proof.
  intros Hle. cbn [WatchStatus].
  destruct (Z.leb_spec waitIndex (LastIndex s)); [done | lia].
Qed.

(** C9, as stated, fails: the status of pod "web" was written once, at
    index 1235, and a watch on it with waitIndex 1235 returns at once,
    although 1235 does not strictly exceed 1235. *)
Lemma WatchStatus_returns_at_waitIndex :
  let s := mkFakeStatusStore
             {[ mkStatusIdentifier "pod" "web" "ns" := [Byte.x01] ]} 1235 in
  WatchStatus [s; s] "pod" "web" "ns" 1235 =
    Some ([Byte.x01], mkQueryMeta 1235, None) ∧
  ¬ (1235 < LastIndex s).
Proof. split; [vm_compute; reflexivity | cbn; lia]. Qed.

(** The index is the store's, not the key's: a write to another key lets
    a watch on "web" return. *)
Example WatchStatus_other_key :
  let s := (SetStatus NewFake "pod" "web" "ns" [Byte.x01]).1 in
  let s' := (SetStatus s "pod" "db" "ns" [Byte.x02]).1 in
  WatchStatus [s; s] "pod" "web" "ns" 1236 = None ∧
  WatchStatus [s; s'; s'] "pod" "web" "ns" 1236 =
    Some ([Byte.x01], mkQueryMeta 1236, None).
Proof. split; vm_compute; reflexivity. Qed.

(** C9, amended. [WatchStatus] returns exactly when it has seen the
    store's LastIndex at or above waitIndex (the fake store keeps one
    index for all keys), all turns of the loop before having seen it
    below; and what it returns is the answer of [GetStatus] for the key on
    the store as it is at that call: the stored status, or the
    NoStatusError answer for an absent key. *)
Theorem WatchStatus_spec seen t id ns waitIndex r :
  WatchStatus seen t id ns waitIndex = Some r ↔
  ∃ before s s' rest,
    seen = before ++ s :: s' :: rest ∧
    Forall (λ x, LastIndex x < waitIndex) before ∧
    waitIndex ≤ LastIndex s ∧
    r = GetStatus s' t id ns.
Proof.
  split.
  - induction seen as [|s later IH]; [done|].
    destruct (Z.le_gt_cases waitIndex (LastIndex s)) as [Hle|Hlt].
    + destruct later as [|s' rest].
      * cbn. by destruct (waitIndex <=? LastIndex s).
      * rewrite WatchStatus_fires by done. intros [= <-].
        by exists [], s, s', rest.
    + rewrite WatchStatus_waits by done. intros Hr.
      destruct (IH Hr) as (before & s0 & s' & rest & -> & Hall & Hle & ->).
      exists (s :: before), s0, s', rest. split; [done|].
      split; [by constructor | done].
  - intros (before & s & s' & rest & -> & Hall & Hle & ->).
    induction Hall as [|x before Hx Hall IH]; cbn [app].
    + by apply WatchStatus_fires.
    + by rewrite WatchStatus_waits.
Qed.

Lemma WatchStatus_spec_witness :
  WatchStatus [NewFake; NewFake;
               (SetStatus NewFake "pod" "web" "ns" [Byte.x01]).1;
               (SetStatus NewFake "pod" "web" "ns" [Byte.x01]).1]
              "pod" "web" "ns" 1235 =
  Some (GetStatus (SetStatus NewFake "pod" "web" "ns" [Byte.x01]).1
                  "pod" "web" "ns").
Proof.
  apply (proj2 (WatchStatus_spec
                  [NewFake; NewFake;
                   (SetStatus NewFake "pod" "web" "ns" [Byte.x01]).1;
                   (SetStatus NewFake "pod" "web" "ns" [Byte.x01]).1]
                  "pod" "web" "ns" 1235 _)).
  exists [NewFake; NewFake],
         (SetStatus NewFake "pod" "web" "ns" [Byte.x01]).1,
         (SetStatus NewFake "pod" "web" "ns" [Byte.x01]).1, [].
  split; [reflexivity|]. split; [|split; [|reflexivity]].
  - repeat constructor.
  - by vm_compute.
Defined.

End FakeStore.

(** ** The supervisor: [updatePods] and [updateHealthMonitors] *)

Section Supervisor.

Import Watch.

Implicit Types (pod : PodWatch) (man : Kp.ManifestResult).
Implicit Types (current pods : list PodWatch) (reality : list Kp.ManifestResult).
Implicit Types (w : World).

(** *** The two inner loops *)

Lemma inReality_true reality pod :
  inReality reality pod = true ↔ podId pod ∈ listedId <$> reality.
Proof.
  induction reality as [|man rest IH]; cbn.
  - split; [done | by intros ?%elem_of_nil].
  - rewrite elem_of_cons. case_bool_decide as Heq.
    + split; [by left | done].
    + rewrite IH. split; [by right | by intros [?|?]].
Qed.

Lemma inReality_false reality pod :
  inReality reality pod = false ↔ podId pod ∉ listedId <$> reality.
Proof.
  rewrite <- inReality_true. by destruct (inReality reality pod).
Qed.

Lemma missing_true pods man :
  missing pods man = true ↔ listedId man ∉ podId <$> pods.
Proof.
  induction pods as [|pod rest IH]; cbn.
  - split; [by intros _ ?%elem_of_nil | done].
  - rewrite not_elem_of_cons. case_bool_decide as Heq.
    + split; [done | by intros []].
    + rewrite IH. split; [done | by intros []].
Qed.

Lemma missing_false pods man :
  missing pods man = false ↔ listedId man ∈ podId <$> pods.
Proof.
  destruct (missing pods man) eqn:Hm.
  - apply missing_true in Hm. split; [done | by intros ?].
  - split; [intros _ | done].
    destruct (decide (listedId man ∈ podId <$> pods)) as [|Hn]; [done|].
    apply missing_true in Hn. congruence.
Qed.

(** *** First pass *)

(** The first pass keeps, in their order, the watches whose id is
    listed. *)
Lemma killPass_pods reality current w acc :
  (killPass reality current w acc).2 =
  acc ++ filter (λ pod, inReality reality pod) current.
Proof.
  revert w acc. induction current as [|pod rest IH]; intros w acc.
  - cbn. by rewrite app_nil_r.
  - cbn [killPass]. destruct (inReality reality pod) eqn:Hin.
    + rewrite IH, filter_cons_True; [|by rewrite Hin].
      by rewrite <- app_assoc.
    + rewrite IH, filter_cons_False; [done|]. rewrite Hin. cbn. tauto.
Qed.

(** It sends [true], once, on the channel of each of the others, and
    does nothing else. *)
Lemma killPass_world reality current w acc :
  (killPass reality current w acc).1 =
  mkWorld (nextChan w)
          (sent w ++ ((λ pod, (shutdownCh pod, true)) <$>
                      filter (λ pod, ¬ inReality reality pod) current))
          (started w) (warnings w).
Proof.
  revert w acc. induction current as [|pod rest IH]; intros w acc.
  - cbn. rewrite app_nil_r. by destruct w.
  - cbn [killPass]. destruct (inReality reality pod) eqn:Hin.
    + rewrite IH, filter_cons_False; [done|]. rewrite Hin. cbn. tauto.
    + rewrite IH, filter_cons_True; [|rewrite Hin; cbn; tauto].
      cbn. by rewrite <- app_assoc.
Qed.

(** *** Second pass *)

(** One turn of the second pass: either the manifest has no watch yet and
    a status port, and gets a watch; or the turn changes nothing. *)
Lemma addPass_cons client node lg man rest w pods :
  ((listedId man ∉ podId <$> pods) ∧
   Pods.StatusPort (Kp.Manifest man) ≠ 0 ∧
   addPass client node lg (man :: rest) w pods =
   addPass client node lg rest (worldWith client node lg w man)
           (pods ++ [newPodOf lg w man]))
  ∨
  ((listedId man ∈ podId <$> pods ∨ Pods.StatusPort (Kp.Manifest man) = 0) ∧
   addPass client node lg (man :: rest) w pods =
   addPass client node lg rest w pods).
Proof.
  cbn [addPass]. destruct (missing pods man) eqn:Hmiss.
  - apply missing_true in Hmiss. case_bool_decide as Hport; cbn [andb].
    + left. done.
    + right. split; [right; lia | done].
  - apply missing_false in Hmiss. right. cbn [andb]. split; [by left | done].
Qed.

(** The second pass only appends, and what it appends are watches of
    listed manifests that have a status port. *)
Lemma addPass_pods client node lg reality w pods :
  ∃ added,
    (addPass client node lg reality w pods).2 = pods ++ added ∧
    Forall (λ pod, ∃ man, man ∈ reality ∧ manifest pod = Kp.Manifest man ∧
                          Pods.StatusPort (Kp.Manifest man) ≠ 0) added.
Proof.
  revert w pods. induction reality as [|man rest IH]; intros w pods.
  - exists []. by rewrite app_nil_r.
  - destruct (addPass_cons client node lg man rest w pods)
      as [(_ & Hport & ->) | (_ & ->)].
    + destruct (IH (worldWith client node lg w man) (pods ++ [newPodOf lg w man]))
        as (added & -> & Hall).
      exists (newPodOf lg w man :: added). rewrite <- app_assoc.
      split; [done|]. constructor.
      * exists man. split; [by left | done].
      * eapply Forall_impl; [exact Hall|].
        intros pod (man' & Hin & Hm & Hp). exists man'. split; [by right | done].
    + destruct (IH w pods) as (added & -> & Hall).
      exists added. split; [done|].
      eapply Forall_impl; [exact Hall|].
      intros pod (man' & Hin & Hm & Hp). exists man'. split; [by right | done].
Qed.

(** It sends on no channel. *)
Lemma addPass_sent client node lg reality w pods :
  sent (addPass client node lg reality w pods).1 = sent w.
Proof.
  revert w pods. induction reality as [|man rest IH]; intros w pods; [done|].
  destruct (addPass_cons client node lg man rest w pods)
    as [(_ & _ & ->) | (_ & ->)]; by rewrite IH.
Qed.

(** It never gives an id a second watch. *)
Lemma addPass_NoDup client node lg reality w pods :
  NoDup (podId <$> pods) →
  NoDup (podId <$> (addPass client node lg reality w pods).2).
Proof.
  revert w pods. induction reality as [|man rest IH]; intros w pods Hnd; [done|].
  destruct (addPass_cons client node lg man rest w pods)
    as [(Hfresh & _ & ->) | (_ & ->)]; [|by apply IH].
  apply IH. rewrite fmap_app. apply NoDup_app. split; [done|].
  split; [|apply NoDup_singleton].
  intros x Hx. cbn. rewrite list_elem_of_singleton. by intros ->.
Qed.

(** After it, every listed manifest with a status port has a watch. *)
Lemma addPass_covers client node lg reality w pods man :
  man ∈ reality → Pods.StatusPort (Kp.Manifest man) ≠ 0 →
  listedId man ∈ podId <$> (addPass client node lg reality w pods).2.
Proof.
  revert w pods. induction reality as [|man' rest IH]; intros w pods Hin Hport.
  - by apply elem_of_nil in Hin.
  - apply elem_of_cons in Hin as [-> | Hin].
    + destruct (addPass_cons client node lg man' rest w pods)
        as [(_ & _ & ->) | ([Hhas | Hzero] & ->)]; [| |done].
      * destruct (addPass_pods client node lg rest
                    (worldWith client node lg w man') (pods ++ [newPodOf lg w man']))
          as (added & -> & _).
        rewrite !fmap_app. apply elem_of_app. left. apply elem_of_app. right.
        cbn. by left.
      * destruct (addPass_pods client node lg rest w pods) as (added & -> & _).
        rewrite fmap_app. apply elem_of_app. by left.
    + destruct (addPass_cons client node lg man' rest w pods)
        as [(_ & _ & ->) | (_ & ->)]; by apply IH.
Qed.

(** *** One reconciliation *)

Lemma updatePods_eq client current reality node lg w :
  updatePods client current reality node lg w =
  addPass client node lg reality
          (killPass reality current w []).1 (killPass reality current w []).2.
Proof. unfold updatePods. by destruct (killPass reality current w []). Qed.

(** The watches [updatePods] returns: those it keeps, then those it
    makes. *)
Lemma updatePods_pods client current reality node lg w :
  ∃ added,
    (updatePods client current reality node lg w).2 =
      filter (λ pod, inReality reality pod) current ++ added ∧
    Forall (λ pod, ∃ man, man ∈ reality ∧ manifest pod = Kp.Manifest man ∧
                          Pods.StatusPort (Kp.Manifest man) ≠ 0) added.
Proof.
  rewrite updatePods_eq, killPass_pods. cbn [app]. apply addPass_pods.
Qed.

(** The values [updatePods] sends: [true] on the channel of each watch
    whose id is not listed. *)
Lemma updatePods_sent client current reality node lg w :
  sent (updatePods client current reality node lg w).1 =
  sent w ++ ((λ pod, (shutdownCh pod, true)) <$>
             filter (λ pod, ¬ inReality reality pod) current).
Proof. by rewrite updatePods_eq, addPass_sent, killPass_world. Qed.

Lemma filter_by_key_nil {A} (f : A → string) (x : string) (l : list A) :
  x ∉ f <$> l → filter (λ a, f a = x) l = [].
Proof.
  induction l as [|a l IH]; [done|]. cbn [fmap list_fmap].
  rewrite not_elem_of_cons. intros [Hne Hnot].
  rewrite filter_cons_False by done. by apply IH.
Qed.

(** In a list without two elements of the same key, a key that occurs
    belongs to exactly one element. *)
Lemma filter_by_key_one {A} (f : A → string) (x : string) (l : list A) :
  NoDup (f <$> l) → x ∈ f <$> l →
  length (filter (λ a, f a = x) l) = 1%nat.
Proof.
  induction l as [|a l IH]; cbn [fmap list_fmap].
  - by intros _ ?%elem_of_nil.
  - rewrite NoDup_cons, elem_of_cons. intros [Hnot Hnd] Hin.
    destruct (decide (f a = x)) as [Heq|Hne].
    + rewrite filter_cons_True by done. cbn [length].
      rewrite filter_by_key_nil; [done|]. by rewrite <- Heq.
    + rewrite filter_cons_False by done. apply IH; [done|].
      destruct Hin as [->|Hin]; done.
Qed.

(** [updatePods] gives no id a second watch. *)
Lemma updatePods_NoDup client current reality node lg w :
  NoDup (podId <$> current) →
  NoDup (podId <$> (updatePods client current reality node lg w).2).
Proof.
  intros Hnd. rewrite updatePods_eq, killPass_pods. cbn [app].
  apply addPass_NoDup.
  eapply sublist_NoDup; [exact Hnd|]. apply fmap_sublist, sublist_filter.
Qed.

(** Every watch it returns is the watch of a listed id. *)
Lemma updatePods_only_listed client current reality node lg w pod :
  pod ∈ (updatePods client current reality node lg w).2 →
  podId pod ∈ listedId <$> reality.
Proof.
  intros Hpod.
  destruct (updatePods_pods client current reality node lg w)
    as (added & Heq & Hall).
  rewrite Heq in Hpod. apply elem_of_app in Hpod as [Hkept | Hnew].
  - apply list_elem_of_filter in Hkept as [Hlisted _].
    apply inReality_true. by apply Is_true_eq_true.
  - rewrite Forall_forall in Hall.
    destruct (Hall pod Hnew) as (man & Hman & Hm & _).
    unfold podId. rewrite Hm. by apply (list_elem_of_fmap_2 listedId).
Qed.

(** Every listed id with a status port has a watch among them. *)
Lemma updatePods_covers client current reality node lg w man :
  man ∈ reality → Pods.StatusPort (Kp.Manifest man) ≠ 0 →
  listedId man ∈ podId <$> (updatePods client current reality node lg w).2.
Proof. intros Hin Hport. rewrite updatePods_eq. by apply addPass_covers. Qed.

(** [updatePods] does not look for watches of one id in what it is
    handed: a list that held the watch of "web" twice would come back
    with both. The supervisor never holds such a list, see
    [MonitorPodHealth_NoDup] below. *)
Example updatePods_keeps_duplicates :
  let pods := (updatePods 3%nat [Scenario.webPod; Scenario.webPod]
                          Scenario.webListing "node1" 7%nat emptyWorld).2 in
  pods = [Scenario.webPod; Scenario.webPod] ∧
  length (filter (λ pod, podId pod = "web") pods) = 2%nat ∧
  ¬ NoDup (podId <$> pods).
Proof.
  cbv zeta.
  assert ((updatePods 3%nat [Scenario.webPod; Scenario.webPod]
                      Scenario.webListing "node1" 7%nat emptyWorld).2
          = [Scenario.webPod; Scenario.webPod]) as -> by (vm_compute; reflexivity).
  split; [done|]. split; [vm_compute; reflexivity|].
  cbn. rewrite NoDup_cons. intros [Hnot _]. apply Hnot. by left.
Qed.

(** One reconciliation, from any set in which no two watches have the
    same manifest id: the set [updatePods] returns holds exactly one
    watch for each listed manifest id whose status port is not 0, no
    watch whose id is not listed, and no two watches with the same
    manifest id. *)
Lemma updatePods_reconciles client current reality node lg w :
  NoDup (podId <$> current) →
  (∀ man, man ∈ reality → Pods.StatusPort (Kp.Manifest man) ≠ 0 →
     length (filter (λ pod, podId pod = listedId man)
                    (updatePods client current reality node lg w).2) = 1%nat) ∧
  (∀ pod, pod ∈ (updatePods client current reality node lg w).2 →
     podId pod ∈ listedId <$> reality) ∧
  NoDup (podId <$> (updatePods client current reality node lg w).2).
Proof.
  intros Hnd. split; [|split].
  - intros man Hin Hport. apply filter_by_key_one.
    + by apply updatePods_NoDup.
    + by apply updatePods_covers.
  - intros pod. apply updatePods_only_listed.
  - by apply updatePods_NoDup.
Qed.

Lemma updatePods_reconciles_witness :
  NoDup (podId <$> [Scenario.webPod]) ∧
  (∀ man, man ∈ Scenario.webListing → Pods.StatusPort (Kp.Manifest man) ≠ 0 →
     length (filter (λ pod, podId pod = listedId man)
                    (updatePods 3%nat [Scenario.webPod] Scenario.webListing
                                "node1" 7%nat emptyWorld).2) = 1%nat) ∧
  (∀ pod, pod ∈ (updatePods 3%nat [Scenario.webPod] Scenario.webListing
                            "node1" 7%nat emptyWorld).2 →
     podId pod ∈ listedId <$> Scenario.webListing) ∧
  NoDup (podId <$> (updatePods 3%nat [Scenario.webPod] Scenario.webListing
                               "node1" 7%nat emptyWorld).2).
Proof.
  assert (NoDup (podId <$> [Scenario.webPod])) as Hnd
    by (cbn; apply NoDup_singleton).
  split; [exact Hnd|].
  exact (updatePods_reconciles 3%nat [Scenario.webPod] Scenario.webListing
                               "node1" 7%nat emptyWorld Hnd).
Defined.

(** The supervisor starts from the empty set, so the sets it holds never
    have two watches of one id, whatever the listings answer. *)
Lemma updateHealthMonitors_NoDup listing client watchedPods node lg w :
  NoDup (podId <$> watchedPods) →
  NoDup (podId <$> (updateHealthMonitors listing client watchedPods node lg w).2).
Proof.
  intros Hnd. unfold updateHealthMonitors. destruct listing as [reality err].
  by apply updatePods_NoDup.
Qed.

Lemma supervise_NoDup listings client node lg w pods :
  NoDup (podId <$> pods) →
  NoDup (podId <$> (supervise listings client node lg w pods).2).
Proof.
  revert w pods. induction listings as [|listing rest IH]; intros w pods Hnd.
  - done.
  - cbn [supervise].
    pose proof (updateHealthMonitors_NoDup listing client pods node lg w Hnd)
      as Hstep.
    destruct (updateHealthMonitors listing client pods node lg w) as [w' pods'].
    by apply IH.
Qed.

Corollary MonitorPodHealth_NoDup listings client node lg :
  NoDup (podId <$> (supervise listings client node lg emptyWorld []).2).
Proof. apply supervise_NoDup. cbn. constructor. Qed.

(** C2. For every supervised set, that is every set the supervisor
    holds after any run of reconciliations from the empty set it starts
    with, whatever the listings answered, and for every listed reality
    set: the set [updatePods] returns contains exactly one PodWatch for
    each manifest id of the reality set whose status port is not 0,
    contains no PodWatch whose id is absent from the reality set, and
    contains no two PodWatches with the same manifest id. *)
Theorem updatePods_reconciles_supervised listings client node lg reality :
  (∀ man, man ∈ reality → Pods.StatusPort (Kp.Manifest man) ≠ 0 →
     length (filter (λ pod, podId pod = listedId man)
                    (updatePods client
                       (supervise listings client node lg emptyWorld []).2
                       reality node lg
                       (supervise listings client node lg emptyWorld []).1).2)
     = 1%nat) ∧
  (∀ pod,
     pod ∈ (updatePods client
              (supervise listings client node lg emptyWorld []).2
              reality node lg
              (supervise listings client node lg emptyWorld []).1).2 →
     podId pod ∈ listedId <$> reality) ∧
  NoDup (podId <$> (updatePods client
                      (supervise listings client node lg emptyWorld []).2
                      reality node lg
                      (supervise listings client node lg emptyWorld []).1).2).
Proof. apply updatePods_reconciles, MonitorPodHealth_NoDup. Qed.

Lemma updatePods_reconciles_supervised_witness :
  length (filter (λ pod, podId pod =
                         listedId (Kp.mkManifestResult Scenario.webManifest))
                 (updatePods 3%nat
                    (supervise [(Scenario.webListing, None); ([], Some "kv unavailable")]
                               3%nat "node1" 7%nat emptyWorld []).2
                    Scenario.webListing "node1" 7%nat
                    (supervise [(Scenario.webListing, None); ([], Some "kv unavailable")]
                               3%nat "node1" 7%nat emptyWorld []).1).2)
  = 1%nat ∧
  NoDup (podId <$> (updatePods 3%nat
                      (supervise [(Scenario.webListing, None);
                                  ([], Some "kv unavailable")]
                                 3%nat "node1" 7%nat emptyWorld []).2
                      Scenario.webListing "node1" 7%nat
                      (supervise [(Scenario.webListing, None);
                                  ([], Some "kv unavailable")]
                                 3%nat "node1" 7%nat emptyWorld []).1).2).
Proof.
  destruct (updatePods_reconciles_supervised
              [(Scenario.webListing, None); ([], Some "kv unavailable")]
              3%nat "node1" 7%nat Scenario.webListing) as (Hone & _ & Hnd).
  split; [|exact Hnd].
  apply Hone.
  - by left.
  - by vm_compute.
Defined.

(** *** A listing that fails *)

Lemma inReality_nil_none current :
  filter (λ pod, inReality [] pod) current = [].
Proof.
  induction current as [|pod rest IH]; [done|].
  rewrite filter_cons_False; [done|]. cbn. tauto.
Qed.

Lemma inReality_nil_all current :
  filter (λ pod, ¬ inReality [] pod) current = current.
Proof.
  induction current as [|pod rest IH]; [done|].
  rewrite filter_cons_True; [by rewrite IH|]. cbn. tauto.
Qed.

(** When the listing fails with nothing listed, [updateHealthMonitors]
    logs a warning and goes on to reconcile against the empty listing:
    every watch is sent [true] on its channel and none is kept. *)
Lemma updateHealthMonitors_failed_listing e client watchedPods node lg w :
  updateHealthMonitors ([], Some e) client watchedPods node lg w =
  (mkWorld (nextChan w)
           (sent w ++ ((λ pod, (shutdownCh pod, true)) <$> watchedPods))
           (started w)
           (warnings w ++ ["failed to get pods from reality store"]),
   []).
Proof.
  unfold updateHealthMonitors. rewrite updatePods_eq. cbn [addPass].
  rewrite killPass_world, killPass_pods.
  by rewrite inReality_nil_none, inReality_nil_all.
Qed.

(** C1. The design has a failed listing leave the supervised set and
    its monitors alone. In the code, after a first listing that shows
    "web" the supervisor watches it; when the next listing fails, the
    watch of "web" is sent [true] on its shutdown channel and the
    supervised set comes back empty. *)
Theorem failed_listing_tears_down :
  let first := supervise [(Scenario.webListing, None)]
                         3%nat "node1" 7%nat emptyWorld [] in
  let second := updateHealthMonitors ([], Some "kv unavailable")
                                     3%nat first.2 "node1" 7%nat first.1 in
  first.2 = [Scenario.webPod] ∧
  sent first.1 = [] ∧
  second.2 = [] ∧
  sent second.1 = [(shutdownCh Scenario.webPod, true)] ∧
  warnings second.1 = ["failed to get pods from reality store"].
Proof. cbv zeta. repeat split; vm_compute; reflexivity. Qed.

(** *** A pod that disappears *)

(** The goroutines [updatePods] starts listen on the channel of the
    watch they were started for. *)
Lemma addPass_started client node lg reality w pods :
  Forall (λ g, gShutdown g = shutdownCh (gPod g)) (started w) →
  Forall (λ g, gShutdown g = shutdownCh (gPod g))
         (started (addPass client node lg reality w pods).1).
Proof.
  revert w pods. induction reality as [|man rest IH]; intros w pods Hall; [done|].
  destruct (addPass_cons client node lg man rest w pods)
    as [(_ & _ & ->) | (_ & ->)]; [|by apply IH].
  apply IH. cbn. apply Forall_app. split; [done|]. by constructor.
Qed.

(** Events of the timer alone keep the monitor in its loop. *)
Lemma MonitorHealth_timers envs events store statusChecker :
  ∃ store',
    MonitorHealth ((TimerFired <$> envs) ++ events) store statusChecker =
    MonitorHealth events store' statusChecker.
Proof.
  revert store. induction envs as [|env rest IH]; intros store.
  - by exists store.
  - cbn [fmap list_fmap app MonitorHealth loopBody]. apply IH.
Qed.

(** C5. When a watched pod's id is absent from a listing that
    succeeded, [updateHealthMonitors] sends [true] on the shutdown channel
    of its watch during that call; and a monitor that receives from its
    shutdown channel returns, after however many health checks, without
    taking up anything further. *)
Theorem removed_pod_is_shut_down client current reality node lg w pod :
  pod ∈ current → podId pod ∉ listedId <$> reality →
  (∃ before after,
     sent (updateHealthMonitors (reality, None) client current node lg w).1 =
     sent w ++ before ++ (shutdownCh pod, true) :: after) ∧
  (∀ envs store statusChecker pending,
     ∃ store',
       MonitorHealth ((TimerFired <$> envs) ++ ShutdownReceived true :: pending)
                     store statusChecker =
       Returned store' pending).
Proof.
  intros Hin Habsent. split.
  - unfold updateHealthMonitors. rewrite updatePods_sent.
    assert ((shutdownCh pod, true) ∈
            (λ pod, (shutdownCh pod, true)) <$>
            filter (λ pod, ¬ inReality reality pod) current) as Hsent.
    { apply (list_elem_of_fmap_2 (λ pod, (shutdownCh pod, true))).
      apply list_elem_of_filter. split; [|done].
      apply inReality_false in Habsent. rewrite Habsent. cbn. tauto. }
    apply list_elem_of_split in Hsent as (before & after & ->).
    by exists before, after.
  - intros envs store statusChecker pending.
    destruct (MonitorHealth_timers envs (ShutdownReceived true :: pending)
                store statusChecker) as (store' & ->).
    by exists store'.
Qed.

Lemma removed_pod_is_shut_down_witness :
  (∃ before after,
     sent (updateHealthMonitors ([], None) 3%nat [Scenario.webPod]
                                "node1" 7%nat emptyWorld).1 =
     sent emptyWorld ++ before ++ (shutdownCh Scenario.webPod, true) :: after) ∧
  (∀ envs store statusChecker pending,
     ∃ store',
       MonitorHealth ((TimerFired <$> envs) ++ ShutdownReceived true :: pending)
                     store statusChecker =
       Returned store' pending).
Proof.
  apply (removed_pod_is_shut_down 3%nat [Scenario.webPod] [] "node1" 7%nat
                                  emptyWorld Scenario.webPod).
  - by left.
  - cbn. by intros ?%elem_of_nil.
Defined.

(** The watch of a pod that disappeared is dropped from the set. *)
Lemma removed_pod_is_dropped client current reality node lg w pod :
  podId pod ∉ listedId <$> reality →
  pod ∉ (updateHealthMonitors (reality, None) client current node lg w).2.
Proof.
  intros Habsent Hin. apply Habsent.
  by apply (updatePods_only_listed client current reality node lg w).
Qed.

(** Scenarios A to C of the design: a pod appears, disappears; a pod
    without status port is not watched. *)
Example scenario_add_remove :
  let run := supervise [([], None); (Scenario.webListing, None); ([], None)]
                       3%nat "node1" 7%nat emptyWorld [] in
  run.2 = [] ∧
  sent run.1 = [(0%nat, true)] ∧
  started run.1 = [mkGoroutine Scenario.webPod Scenario.webCheck 0%nat].
Proof. cbv zeta. repeat split; vm_compute; reflexivity. Qed.

Example scenario_no_status_port :
  supervise [([Kp.mkManifestResult (Pods.mkManifest "batch" 0 false)], None)]
            3%nat "node1" 7%nat emptyWorld [] = (emptyWorld, []).
Proof. vm_compute. reflexivity. Qed.

(** *** Channels are sent on at most once *)

Lemma channels_of_sends pods :
  ((λ pod, (shutdownCh pod, true)) <$> pods).*1 = shutdownCh <$> pods.
Proof. rewrite <- list_fmap_compose. by apply list_fmap_ext. Qed.

(** Two entries of one key in a list without repeated keys are one. *)
Lemma NoDup_fmap_eq {A B} (f : A → B) (l : list A) x y :
  NoDup (f <$> l) → x ∈ l → y ∈ l → f x = f y → x = y.
Proof.
  induction l as [|a l IH]; [by intros _ ?%elem_of_nil|].
  cbn [fmap list_fmap]. rewrite NoDup_cons, !elem_of_cons.
  intros [Hnot Hnd] [->|Hx] [->|Hy] Heq; [done| | |by apply IH].
  - exfalso. apply Hnot. rewrite Heq. by apply list_elem_of_fmap_2.
  - exfalso. apply Hnot. rewrite <- Heq. by apply list_elem_of_fmap_2.
Qed.

Lemma killPass_channels_ok reality current w :
  channels_ok w current →
  channels_ok (killPass reality current w []).1 (killPass reality current w []).2.
Proof.
  intros (Hchans & Hpods & Hsent & Hbound).
  rewrite killPass_world, killPass_pods. cbn [app].
  unfold channels_ok. cbn [nextChan sent].
  rewrite fmap_app, channels_of_sends.
  rewrite Forall_forall in Hpods.
  assert (∀ P `{∀ x, Decision (P x)}, NoDup (shutdownCh <$> filter P current))
    as Hsub.
  { intros P ?. eapply sublist_NoDup; [exact Hchans|].
    apply fmap_sublist, sublist_filter. }
  split; [apply Hsub|]. split; [|split].
  - apply Forall_forall. intros pod [Hkept Hin]%list_elem_of_filter.
    split; [by apply Hpods|]. rewrite not_elem_of_app. split; [by apply Hpods|].
    intros (pod' & Heq & [Hkilled Hin']%list_elem_of_filter)%list_elem_of_fmap_1.
    assert (pod = pod') as <- by by eapply NoDup_fmap_eq.
    done.
  - apply NoDup_app. split; [done|]. split; [|apply Hsub].
    intros ch Hch (pod & -> & [_ Hin]%list_elem_of_filter)%list_elem_of_fmap_1.
    by apply (Hpods pod Hin).
  - apply Forall_app. split; [done|].
    apply Forall_forall.
    intros ch (pod & -> & [_ Hin]%list_elem_of_filter)%list_elem_of_fmap_1.
    by apply Hpods.
Qed.

Lemma addPass_channels_ok client node lg reality w pods :
  channels_ok w pods →
  channels_ok (addPass client node lg reality w pods).1
              (addPass client node lg reality w pods).2.
Proof.
  revert w pods. induction reality as [|man rest IH]; intros w pods Hok; [done|].
  destruct (addPass_cons client node lg man rest w pods)
    as [(_ & _ & ->) | (_ & ->)]; [|by apply IH].
  apply IH. destruct Hok as (Hchans & Hpods & Hsent & Hbound).
  unfold channels_ok. cbn [worldWith newPodOf spawn makeChan nextChan sent snd].
  rewrite Forall_forall in Hpods. rewrite Forall_forall in Hbound.
  split; [|split; [|split]].
  - rewrite fmap_app. apply NoDup_app. split; [done|].
    split; [|apply NoDup_singleton].
    intros ch (pod & -> & Hin)%list_elem_of_fmap_1. cbn.
    rewrite list_elem_of_singleton. destruct (Hpods pod Hin) as [Hlt _]. lia.
  - apply Forall_app. split.
    + apply Forall_forall. intros pod Hin. destruct (Hpods pod Hin). split; [lia|done].
    + constructor; [|done]. cbn. split; [lia|].
      intros Hin. apply Hbound in Hin. lia.
  - done.
  - apply Forall_forall. intros ch Hin. apply Hbound in Hin. lia.
Qed.

Lemma updateHealthMonitors_channels_ok listing client watchedPods node lg w :
  channels_ok w watchedPods →
  channels_ok (updateHealthMonitors listing client watchedPods node lg w).1
              (updateHealthMonitors listing client watchedPods node lg w).2.
Proof.
  intros Hok. unfold updateHealthMonitors. destruct listing as [reality err].
  rewrite updatePods_eq. apply addPass_channels_ok.
  rewrite killPass_world, killPass_pods.
  pose proof (killPass_channels_ok reality watchedPods w Hok) as Hk.
  rewrite killPass_world, killPass_pods in Hk.
  by destruct err.
Qed.

Lemma supervise_channels_ok listings client node lg w pods :
  channels_ok w pods →
  channels_ok (supervise listings client node lg w pods).1
              (supervise listings client node lg w pods).2.
Proof.
  revert w pods. induction listings as [|listing rest IH]; intros w pods Hok.
  - done.
  - cbn [supervise].
    pose proof (updateHealthMonitors_channels_ok listing client pods node lg w Hok)
      as Hstep.
    destruct (updateHealthMonitors listing client pods node lg w) as [w' pods'].
    by apply IH.
Qed.

(** Whatever the listings answer, the supervisor sends on each channel at
    most once: no send finds the one place of the channel taken. *)
Corollary MonitorPodHealth_sends_once listings client node lg :
  NoDup (sent (supervise listings client node lg emptyWorld []).1).*1.
Proof.
  assert (channels_ok emptyWorld []) as Hok.
  { repeat split; cbn; constructor. }
  by destruct (supervise_channels_ok listings client node lg _ _ Hok)
    as (_ & _ & Hnd & _).
Qed.

(** A watch whose pod stays listed is kept as it is, also when the
    listed manifest has given up its status port. *)
Example updatePods_keeps_listed :
  (updatePods 3%nat [Scenario.webPod]
              [Kp.mkManifestResult (Pods.mkManifest "web" 0 false)]
              "node1" 7%nat emptyWorld).2 = [Scenario.webPod].
Proof. vm_compute. reflexivity. Qed.

End Supervisor.

(** * Further properties of the code *)

(** ** The fake status store: writes, reads and the index *)

Section FakeStoreCalls.

Import StatusStoreTest.

Implicit Types (s : FakeStatusStore) (t id ns : string) (status : Status).

Lemma wrapU64_succ z : 0 ≤ z → z + 1 < 2 ^ 64 → wrapU64 (z + 1) = z + 1.
Proof. intros H0 Hlt. unfold wrapU64. apply Z.mod_small. lia. Qed.

(** What is set can be read back: after [SetStatus], [GetStatus] on the
    same key gives the status just set, without error, at the index
    [SetStatus] moved the store to; and [SetStatus] itself reports no
    error. *)
Theorem SetStatus_then_GetStatus s t id ns status :
  (SetStatus s t id ns status).2 = None ∧
  GetStatus (SetStatus s t id ns status).1 t id ns =
    (status, mkQueryMeta (wrapU64 (LastIndex s + 1)), None).
Proof.
  split; [done|]. unfold GetStatus, SetStatus. cbn [fst Statuses LastIndex].
  by rewrite lookup_insert_eq.
Qed.

(** What is deleted is gone, whether it was there or not: after
    [DeleteStatus], [GetStatus] on the same key gives the NoStatusError
    of the key, at the index [DeleteStatus] moved the store to; and
    [DeleteStatus] itself reports no error. *)
Theorem DeleteStatus_then_GetStatus s t id ns :
  (DeleteStatus s t id ns).2 = None ∧
  GetStatus (DeleteStatus s t id ns).1 t id ns =
    ([], mkQueryMeta (wrapU64 (LastIndex s + 1)),
     Some (NoStatusError ("status/" +:+ t +:+ "/" +:+ id +:+ "/" +:+ ns))).
Proof.
  split; [done|]. unfold GetStatus, DeleteStatus. cbn [fst Statuses LastIndex].
  by rewrite lookup_delete_eq.
Qed.

(** A write to one key leaves what every other key reads as: after
    [SetStatus] or [DeleteStatus] on a key, [GetStatus] on a different key
    gives the status and the error it gave before; only the index it
    reports has moved. *)
Theorem write_leaves_other_keys s t id ns status t' id' ns' :
  mkStatusIdentifier t' id' ns' ≠ mkStatusIdentifier t id ns →
  GetStatus (SetStatus s t id ns status).1 t' id' ns' =
    ((GetStatus s t' id' ns').1.1, mkQueryMeta (wrapU64 (LastIndex s + 1)),
     (GetStatus s t' id' ns').2) ∧
  GetStatus (DeleteStatus s t id ns).1 t' id' ns' =
    ((GetStatus s t' id' ns').1.1, mkQueryMeta (wrapU64 (LastIndex s + 1)),
     (GetStatus s t' id' ns').2).
Proof.
  intros Hne. unfold GetStatus, SetStatus, DeleteStatus.
  cbn [fst Statuses LastIndex].
  rewrite lookup_insert_ne, lookup_delete_ne by done.
  by destruct (Statuses s !! mkStatusIdentifier t' id' ns').
Qed.

Lemma write_leaves_other_keys_witness :
  GetStatus (SetStatus NewFake "pod" "web" "ns" [Byte.x01]).1 "pod" "db" "ns" =
    ((GetStatus NewFake "pod" "db" "ns").1.1,
     mkQueryMeta (wrapU64 (LastIndex NewFake + 1)),
     (GetStatus NewFake "pod" "db" "ns").2) ∧
  GetStatus (DeleteStatus NewFake "pod" "web" "ns").1 "pod" "db" "ns" =
    ((GetStatus NewFake "pod" "db" "ns").1.1,
     mkQueryMeta (wrapU64 (LastIndex NewFake + 1)),
     (GetStatus NewFake "pod" "db" "ns").2).
Proof.
  apply (write_leaves_other_keys NewFake "pod" "web" "ns" [Byte.x01]
                                 "pod" "db" "ns").
  discriminate.
Defined.

Lemma call_LastIndex s c :
  LastIndex (call s c) =
  if writes c then wrapU64 (LastIndex s + 1) else LastIndex s.
Proof. by destruct c. Qed.

(** The index counts the writes: after any run of calls the LastIndex
    has grown by the number of [SetStatus] and [DeleteStatus] among them,
    reads and refused transactions adding nothing, as long as it stays
    within [uint64]. *)
Theorem calls_LastIndex s (cs : list Call) :
  0 ≤ LastIndex s →
  LastIndex s + Z.of_nat (length (filter (λ c, writes c) cs)) < 2 ^ 64 →
  LastIndex (calls s cs) =
  LastIndex s + Z.of_nat (length (filter (λ c, writes c) cs)).
Proof.
  unfold calls. revert s. induction cs as [|c cs IH]; intros s H0 Hlt.
  - cbn. lia.
  - cbn [foldl]. destruct (writes c) eqn:Hw.
    + rewrite filter_cons_True in * by by rewrite Hw.
      cbn [length] in *.
      assert (LastIndex (call s c) = LastIndex s + 1) as Hstep.
      { rewrite call_LastIndex, Hw. apply wrapU64_succ; lia. }
      rewrite IH; lia.
    + rewrite filter_cons_False in * by (rewrite Hw; cbn; tauto).
      assert (LastIndex (call s c) = LastIndex s) as Hstep.
      { by rewrite call_LastIndex, Hw. }
      rewrite IH; lia.
Qed.

Lemma calls_LastIndex_witness :
  LastIndex (calls NewFake [CallSet "pod" "web" "ns" [Byte.x01];
                            CallGet "pod" "web" "ns";
                            CallCAS "pod" "web" "ns" [Byte.x02] 1235;
                            CallDelete "pod" "web" "ns"]) =
  LastIndex NewFake +
  Z.of_nat (length (filter (λ c, writes c)
                           [CallSet "pod" "web" "ns" [Byte.x01];
                            CallGet "pod" "web" "ns";
                            CallCAS "pod" "web" "ns" [Byte.x02] 1235;
                            CallDelete "pod" "web" "ns"])).
Proof.
  apply (calls_LastIndex NewFake).
  - by vm_compute.
  - by vm_compute.
Defined.

(** A watch for the next index sleeps until the next write: with
    waitIndex one above the store's index, [WatchStatus] does not return
    however often it looks at the unchanged store, and once a [SetStatus]
    or [DeleteStatus] on any key has gone through it returns what
    [GetStatus] answers for the watched key. *)
Theorem WatchStatus_wakes_on_write s c t id ns (n : nat) :
  0 ≤ LastIndex s → LastIndex s + 1 < 2 ^ 64 → writes c = true →
  WatchStatus (replicate n s) t id ns (LastIndex s + 1) = None ∧
  WatchStatus (replicate n s ++ [call s c; call s c]) t id ns (LastIndex s + 1) =
    Some (GetStatus (call s c) t id ns).
Proof.
  intros H0 Hlt Hw.
  assert (LastIndex (call s c) = LastIndex s + 1) as Hstep.
  { rewrite call_LastIndex, Hw. by apply wrapU64_succ. }
  induction n as [|n [IH1 IH2]]; cbn [replicate app].
  - split; [done|]. apply WatchStatus_fires. lia.
  - rewrite !WatchStatus_waits by lia. done.
Qed.

Lemma WatchStatus_wakes_on_write_witness :
  WatchStatus (replicate 3 NewFake) "pod" "web" "ns" (LastIndex NewFake + 1) = None ∧
  WatchStatus (replicate 3 NewFake ++
               [call NewFake (CallSet "pod" "web" "ns" [Byte.x01]);
                call NewFake (CallSet "pod" "web" "ns" [Byte.x01])])
              "pod" "web" "ns" (LastIndex NewFake + 1) =
    Some (GetStatus (call NewFake (CallSet "pod" "web" "ns" [Byte.x01]))
                    "pod" "web" "ns").
Proof.
  apply (WatchStatus_wakes_on_write NewFake (CallSet "pod" "web" "ns" [Byte.x01])
                                    "pod" "web" "ns" 3).
  - by vm_compute.
  - by vm_compute.
  - reflexivity.
Defined.

End FakeStoreCalls.

(** ** The fake status store: listing the statuses of a resource *)

Section FakeStoreListing.

Import StatusStoreTest.

Implicit Types (s : FakeStatusStore) (t id ns : string).
Implicit Types (visited : list (StatusIdentifier * Status)).

(** A walk over the statuses visits every key once, and with the status
    the store holds for it. *)
Lemma rangeOf_spec s visited :
  rangeOf s visited →
  NoDup visited.*1 ∧ list_to_map visited = Statuses s.
Proof.
  unfold rangeOf. intros Hperm.
  assert (NoDup visited.*1) as Hnd.
  { rewrite Hperm. apply NoDup_fst_map_to_list. }
  split; [done|].
  rewrite (list_to_map_proper _ _ Hnd Hperm). apply list_to_map_to_list.
Qed.

Lemma rangeOf_map_to_list s : rangeOf s (map_to_list (Statuses s)).
Proof. unfold rangeOf. reflexivity. Qed.

(** The loop of [GetAllStatusForResource], from any map collected so
    far. *)
Lemma collect_resource_lookup visited (acc : gmap string Status) t id ns :
  NoDup visited.*1 →
  foldl (λ ret '(identifier, status),
           if bool_decide (resourceType identifier = t)
              && bool_decide (resourceID identifier = id)
           then <[namespace identifier := status]> ret
           else ret)
        acc visited !! ns =
  match (list_to_map visited : gmap StatusIdentifier Status)
          !! mkStatusIdentifier t id ns with
  | Some status => Some status
  | None => acc !! ns
  end.
Proof.
  revert acc. induction visited as [|[k v] rest IH]; intros acc Hnd; [done|].
  cbn [fmap list_fmap fst] in Hnd. apply NoDup_cons in Hnd as [Hfresh Hnd].
  cbn [foldl]. rewrite IH by done. rewrite list_to_map_cons.
  destruct (decide (k = mkStatusIdentifier t id ns)) as [->|Hne].
  - rewrite lookup_insert_eq, not_elem_of_list_to_map_1 by done.
    cbn. rewrite !bool_decide_eq_true_2 by done. cbn.
    by rewrite lookup_insert_eq.
  - rewrite lookup_insert_ne by done.
    destruct (list_to_map rest !! mkStatusIdentifier t id ns); [done|].
    repeat case_bool_decide; cbn [andb]; try done.
    rewrite lookup_insert_ne; [done|].
    intros Hns. apply Hne. destruct k; cbn in *. by subst.
Qed.

(** [GetAllStatusForResource] answers, without error and in whatever
    order Go walks the map, with the map that holds under each namespace
    the status the store holds for that namespace of the resource, and
    nothing under the namespaces the store has no status for. *)
Theorem GetAllStatusForResource_lookup s visited t id ns :
  rangeOf s visited →
  (GetAllStatusForResource visited t id).2 = None ∧
  (GetAllStatusForResource visited t id).1 !! ns =
    Statuses s !! mkStatusIdentifier t id ns.
Proof.
  intros [Hnd Hmap]%rangeOf_spec. split; [done|].
  unfold GetAllStatusForResource. cbn [fst].
  rewrite collect_resource_lookup by done. rewrite Hmap, lookup_empty.
  by destruct (Statuses s !! mkStatusIdentifier t id ns).
Qed.

Lemma GetAllStatusForResource_lookup_witness :
  (GetAllStatusForResource
     (map_to_list (Statuses (SetStatus NewFake "pod" "web" "ns" [Byte.x01]).1))
     "pod" "web").2 = None ∧
  (GetAllStatusForResource
     (map_to_list (Statuses (SetStatus NewFake "pod" "web" "ns" [Byte.x01]).1))
     "pod" "web").1 !! "ns" =
    Statuses (SetStatus NewFake "pod" "web" "ns" [Byte.x01]).1
      !! mkStatusIdentifier "pod" "web" "ns".
Proof.
  apply (GetAllStatusForResource_lookup
           (SetStatus NewFake "pod" "web" "ns" [Byte.x01]).1).
  unfold rangeOf. reflexivity.
Defined.

(** The loop of [GetAllStatusForResourceType], from any map collected so
    far. *)
Lemma collect_type_lookup visited (acc : gmap string (gmap string Status))
      t id ns :
  NoDup visited.*1 →
  foldl (λ ret '(identifier, status),
           if bool_decide (resourceType identifier = t)
           then
             let inner := match ret !! resourceID identifier with
                          | None => ∅
                          | Some m => m
                          end in
             <[resourceID identifier :=
                 <[namespace identifier := status]> inner]> ret
           else ret)
        acc visited !! id ≫= (λ m, m !! ns) =
  match (list_to_map visited : gmap StatusIdentifier Status)
          !! mkStatusIdentifier t id ns with
  | Some status => Some status
  | None => acc !! id ≫= (λ m, m !! ns)
  end.
Proof.
  revert acc. induction visited as [|[k v] rest IH]; intros acc Hnd; [done|].
  cbn [fmap list_fmap fst] in Hnd. apply NoDup_cons in Hnd as [Hfresh Hnd].
  cbn [foldl]. rewrite IH by done. rewrite list_to_map_cons.
  destruct (decide (k = mkStatusIdentifier t id ns)) as [->|Hne].
  - rewrite lookup_insert_eq, not_elem_of_list_to_map_1 by done.
    cbn. rewrite bool_decide_eq_true_2 by done.
    rewrite lookup_insert_eq. cbn. by rewrite lookup_insert_eq.
  - rewrite lookup_insert_ne by done.
    destruct (list_to_map rest !! mkStatusIdentifier t id ns); [done|].
    case_bool_decide as Ht; [|done]. cbv zeta.
    destruct (decide (resourceID k = id)) as [Hid|Hid].
    + rewrite Hid, lookup_insert_eq. cbn.
      rewrite lookup_insert_ne.
      * by destruct (acc !! id).
      * intros Hns. apply Hne. destruct k; cbn in *. by subst.
    + by rewrite lookup_insert_ne.
Qed.

Lemma collect_type_nonempty visited (acc : gmap string (gmap string Status))
      t id m :
  (∀ id' m', acc !! id' = Some m' → m' ≠ ∅) →
  foldl (λ ret '(identifier, status),
           if bool_decide (resourceType identifier = t)
           then
             let inner := match ret !! resourceID identifier with
                          | None => ∅
                          | Some m => m
                          end in
             <[resourceID identifier :=
                 <[namespace identifier := status]> inner]> ret
           else ret)
        acc visited !! id = Some m →
  m ≠ ∅.
Proof.
  revert acc. induction visited as [|[k v] rest IH]; intros acc Hacc.
  - apply Hacc.
  - cbn [foldl]. apply IH. case_bool_decide; [|done].
    intros id' m'. cbv zeta.
    destruct (decide (resourceID k = id')) as [<-|Hid].
    + rewrite lookup_insert_eq. intros [= <-]. apply insert_non_empty.
    + rewrite lookup_insert_ne by done. apply Hacc.
Qed.

(** [GetAllStatusForResourceType] answers, without error and in whatever
    order Go walks the map, with a map of maps in which a resource id and
    a namespace lead to the status the store holds for them under the
    type asked for, and to nothing where the store holds none; and no
    resource id is given an empty map. *)
Theorem GetAllStatusForResourceType_lookup s visited t :
  rangeOf s visited →
  (GetAllStatusForResourceType visited t).2 = None ∧
  (∀ id ns,
     (GetAllStatusForResourceType visited t).1 !! id ≫= (λ m, m !! ns) =
     Statuses s !! mkStatusIdentifier t id ns) ∧
  (∀ id m, (GetAllStatusForResourceType visited t).1 !! id = Some m → m ≠ ∅).
Proof.
  intros [Hnd Hmap]%rangeOf_spec. split; [done|]. split.
  - intros id ns. unfold GetAllStatusForResourceType. cbn [fst].
    rewrite collect_type_lookup by done. rewrite Hmap, lookup_empty. cbn.
    by destruct (Statuses s !! mkStatusIdentifier t id ns).
  - intros id m. unfold GetAllStatusForResourceType. cbn [fst].
    apply collect_type_nonempty. intros id' m'. by rewrite lookup_empty.
Qed.

Lemma GetAllStatusForResourceType_lookup_witness :
  (GetAllStatusForResourceType
     (map_to_list (Statuses (SetStatus NewFake "pod" "web" "ns" [Byte.x01]).1))
     "pod").2 = None ∧
  (∀ id ns,
     (GetAllStatusForResourceType
        (map_to_list (Statuses (SetStatus NewFake "pod" "web" "ns" [Byte.x01]).1))
        "pod").1 !! id ≫= (λ m, m !! ns) =
     Statuses (SetStatus NewFake "pod" "web" "ns" [Byte.x01]).1
       !! mkStatusIdentifier "pod" id ns) ∧
  (∀ id m,
     (GetAllStatusForResourceType
        (map_to_list (Statuses (SetStatus NewFake "pod" "web" "ns" [Byte.x01]).1))
        "pod").1 !! id = Some m → m ≠ ∅).
Proof.
  apply (GetAllStatusForResourceType_lookup
           (SetStatus NewFake "pod" "web" "ns" [Byte.x01]).1).
  unfold rangeOf. reflexivity.
Defined.

(** The two listings agree: what [GetAllStatusForResourceType] holds
    under a resource id is the map [GetAllStatusForResource] gives for
    that resource, and it holds nothing under the id when that map is
    empty. *)
Theorem GetAllStatusForResourceType_resource s visited t id :
  rangeOf s visited →
  (GetAllStatusForResourceType visited t).1 !! id =
  if decide ((GetAllStatusForResource visited t id).1 = ∅)
  then None
  else Some (GetAllStatusForResource visited t id).1.
Proof.
  intros [Hnd Hmap]%rangeOf_spec.
  unfold GetAllStatusForResourceType, GetAllStatusForResource. cbn [fst].
  set (byType := foldl _ ∅ visited).
  set (byResource := foldl _ ∅ visited).
  assert (∀ ns, byResource !! ns = Statuses s !! mkStatusIdentifier t id ns)
    as Hres.
  { intros ns. unfold byResource. rewrite collect_resource_lookup by done.
    rewrite Hmap, lookup_empty.
    by destruct (Statuses s !! mkStatusIdentifier t id ns). }
  assert (∀ ns, byType !! id ≫= (λ m, m !! ns) =
                Statuses s !! mkStatusIdentifier t id ns) as Htype.
  { intros ns. unfold byType. rewrite collect_type_lookup by done.
    rewrite Hmap, lookup_empty. cbn.
    by destruct (Statuses s !! mkStatusIdentifier t id ns). }
  destruct (byType !! id) as [m|] eqn:Hm.
  - assert (m = byResource) as ->.
    { apply map_eq. intros ns. rewrite Hres, <- Htype. done. }
    rewrite decide_False; [done|].
    eapply (collect_type_nonempty visited ∅ t id); [|exact Hm].
    intros id' m'. by rewrite lookup_empty.
  - rewrite decide_True; [done|].
    apply map_eq. intros ns. rewrite Hres, <- Htype, lookup_empty. done.
Qed.

Lemma GetAllStatusForResourceType_resource_witness :
  (GetAllStatusForResourceType
     (map_to_list (Statuses (SetStatus NewFake "pod" "web" "ns" [Byte.x01]).1))
     "pod").1 !! "web" =
  if decide ((GetAllStatusForResource
                (map_to_list
                   (Statuses (SetStatus NewFake "pod" "web" "ns" [Byte.x01]).1))
                "pod" "web").1 = ∅)
  then None
  else Some (GetAllStatusForResource
               (map_to_list
                  (Statuses (SetStatus NewFake "pod" "web" "ns" [Byte.x01]).1))
               "pod" "web").1.
Proof.
  apply (GetAllStatusForResourceType_resource
           (SetStatus NewFake "pod" "web" "ns" [Byte.x01]).1).
  unfold rangeOf. reflexivity.
Defined.

Example GetAllStatusForResourceType_web :
  (GetAllStatusForResourceType
     [(mkStatusIdentifier "pod" "web" "a", [Byte.x01]);
      (mkStatusIdentifier "rc" "web" "a", [Byte.x02]);
      (mkStatusIdentifier "pod" "web" "b", [Byte.x03]);
      (mkStatusIdentifier "pod" "db" "a", [Byte.x04])]
     "pod").1 =
  {[ "web" := {[ "a" := [Byte.x01]; "b" := [Byte.x03] ]};
     "db" := {[ "a" := [Byte.x04] ]} ]}.
Proof. vm_compute. reflexivity. Qed.

(** *** Key strings *)

Import Stdlib.Strings.Ascii.

Lemma append_empty (x : string) : "" +:+ x = x.
Proof. reflexivity. Qed.

Lemma append_cons c (a x : string) :
  String.String c a +:+ x = String.String c (a +:+ x).
Proof. reflexivity. Qed.

Lemma append_cancel (p a b : string) : p +:+ a = p +:+ b → a = b.
Proof.
  induction p as [|c p IH]; [done|].
  rewrite !append_cons. intros [= Heq]. by apply IH.
Qed.

(** Where neither has a slash, the first slash of a string is found at
    one place only. *)
Lemma split_at_slash (a b x y : string) :
  hasSlash a = false → hasSlash b = false →
  a +:+ "/" +:+ x = b +:+ "/" +:+ y → a = b ∧ x = y.
Proof.
  revert b. induction a as [|c a IH]; intros [|d b];
    repeat (rewrite append_cons || rewrite append_empty); cbn [hasSlash].
  - intros _ _ [= ->]. done.
  - destruct (Ascii.eqb_spec d "/"); [done|]. intros _ _ [= <- _]. done.
  - destruct (Ascii.eqb_spec c "/"); [done|]. intros _ _ [= -> _]. done.
  - destruct (Ascii.eqb_spec c "/"); [done|].
    destruct (Ascii.eqb_spec d "/"); [done|].
    intros Ha Hb [= -> Heq]. destruct (IH b Ha Hb Heq) as [-> ->]. done.
Qed.

(** Identifiers whose resource type and resource id hold no slash have
    key strings of their own: two of them with the same key string are
    the same identifier. *)
Theorem String_inj k1 k2 :
  hasSlash (resourceType k1) = false → hasSlash (resourceID k1) = false →
  hasSlash (resourceType k2) = false → hasSlash (resourceID k2) = false →
  String k1 = String k2 → k1 = k2.
Proof.
  destruct k1 as [t1 i1 n1], k2 as [t2 i2 n2]. cbn [resourceType resourceID].
  intros Ht1 Hi1 Ht2 Hi2. unfold String. cbn [resourceType resourceID namespace].
  intros Hrest%append_cancel.
  apply split_at_slash in Hrest as [-> Hrest]; [|done..].
  apply split_at_slash in Hrest as [-> ->]; [|done..].
  done.
Qed.

Lemma String_inj_witness :
  mkStatusIdentifier "pod" "web" "a/b" = mkStatusIdentifier "pod" "web" "a/b".
Proof.
  apply (String_inj (mkStatusIdentifier "pod" "web" "a/b")
                    (mkStatusIdentifier "pod" "web" "a/b"));
    reflexivity.
Defined.

(** With a slash in the resource id the key strings do run together. *)
Example String_collision :
  String (mkStatusIdentifier "pod" "a/b" "c") =
  String (mkStatusIdentifier "pod" "a" "b/c").
Proof. reflexivity. Qed.

End FakeStoreListing.

(** ** The per-pod monitor: what a health check publishes *)

Section Checks.

Import Watch.

Implicit Types (env : TickEnv) (store : Kp.Store) (sc : StatusCheck).

Lemma wrap64_small z : int64_min ≤ z ≤ int64_max → wrap64 z = z.
Proof.
  unfold int64_min, int64_max, wrap64. intros Hz.
  rewrite Z.mod_small; lia.
Qed.

(** [checkHealth] does not change the status of the result on its way to
    [updateNeeded] and to the store. *)
Lemma stamped_status res id node :
  Health.Status (Health.setService (Health.setNode (Health.setID res id) node) id)
  = Health.Status res.
Proof. reflexivity. Qed.

(** A failed read of the body ends the health check: nothing is
    published, nothing is logged, and the checker is as it was. *)
Theorem checkHealth_body_read_error env store sc code e :
  Check (network env) sc =
    (Some (Http.mkResponse code (Http.ReadErr e)), None) →
  checkHealth env store sc = mkChecked store sc [].
Proof.
  intros Hprobe. unfold checkHealth. rewrite Hprobe.
  unfold resultFromCheck. by rewrite getBody_err.
Qed.

Lemma checkHealth_body_read_error_witness :
  checkHealth (mkTickEnv
                 (λ _ _ _, (Some (Http.mkResponse 200 (Http.ReadErr "reset")),
                            None))
                 (Scenario.at_second 1) (Scenario.at_second 1, None))
              [] Scenario.webCheck =
  mkChecked [] Scenario.webCheck [].
Proof.
  apply (checkHealth_body_read_error _ [] Scenario.webCheck 200 "reset").
  reflexivity.
Defined.

(** With the TTL of the package, and the clock not behind the last
    check, a health check whose probe gives a result always publishes it:
    the record carries the checker's ID as service and id, its node, and
    the status and output of the result; the callee's checker takes the
    time the put answered with and the status, also when the put failed;
    and a failed put is logged as a warning. *)
Theorem checkHealth_publishes env store sc res :
  lastCheck sc ≤ clock env →
  resultFromCheck (Check (network env) sc).1 (Check (network env) sc).2 =
    (res, None) →
  checkHealth env store sc =
  mkChecked
    (store ++ [Kp.mkWatchResult (ID sc) (Node sc) (ID sc)
                                (Health.Status res) (Health.Output res)])
    (set_lastStatus (set_lastCheck sc (putAnswer env).1) (Health.Status res))
    (match (putAnswer env).2 with
     | Some _ => ["failed to write to consul"]
     | None => []
     end).
Proof.
  intros Hclock Hres. unfold checkHealth.
  destruct (Check (network env) sc) as [resp err]. cbn [fst snd] in Hres.
  rewrite Hres. rewrite updateNeeded_TTL by done.
  unfold writeToConsul, Kp.PutHealth.
  destruct (putAnswer env) as [t [e|]]; reflexivity.
Qed.

Lemma checkHealth_publishes_witness :
  checkHealth (Scenario.tickPutFails 1) [] Scenario.webCheck =
  mkChecked
    [Kp.mkWatchResult "web" "node1" "web" "passing" "ok"]
    (set_lastStatus (set_lastCheck Scenario.webCheck zeroTime) "passing")
    ["failed to write to consul"].
Proof.
  apply (checkHealth_publishes (Scenario.tickPutFails 1) [] Scenario.webCheck
                               (Health.mkResult "" "" "" "passing" "ok")).
  - by vm_compute.
  - reflexivity.
Defined.

(** A probe that fails to connect is published as critical, with the
    text of the error as output. *)
Theorem checkHealth_probe_error env store sc resp e :
  lastCheck sc ≤ clock env →
  Check (network env) sc = (resp, Some e) →
  storeAfter (checkHealth env store sc) =
  store ++ [Kp.mkWatchResult (ID sc) (Node sc) (ID sc) "critical" e].
Proof.
  intros Hclock Hprobe. unfold checkHealth. rewrite Hprobe.
  assert (resultFromCheck resp (Some e) =
          (Health.mkResult "" "" "" Health.Critical e, None)) as ->
    by by destruct resp.
  rewrite updateNeeded_TTL by done.
  unfold writeToConsul, Kp.PutHealth.
  destruct (putAnswer env) as [t [e'|]]; reflexivity.
Qed.

Lemma checkHealth_probe_error_witness :
  storeAfter (checkHealth
                (mkTickEnv (λ _ _ _, (None, Some "connection refused"))
                           (Scenario.at_second 1) (Scenario.at_second 1, None))
                [] Scenario.webCheck) =
  [] ++ [Kp.mkWatchResult "web" "node1" "web" "critical" "connection refused"].
Proof.
  apply (checkHealth_probe_error _ [] Scenario.webCheck None "connection refused").
  - by vm_compute.
  - reflexivity.
Defined.

(** When the product of [ttl/4] and [time.Second] stays within [int64],
    [updateNeeded] answers true exactly when the status differs from the
    last one or the nanoseconds since the last check exceed that product:
    a quarter of the TTL's count of nanoseconds, taken as seconds. *)
Theorem updateNeeded_small_ttl now sc res ttl :
  0 ≤ ttl → Z.quot ttl 4 * Second ≤ int64_max →
  updateNeeded now sc res ttl =
  bool_decide (lastStatus sc ≠ Health.Status res ∨
               Since now (lastCheck sc) > Z.quot ttl 4 * Second).
Proof.
  intros H0 Hmax. unfold updateNeeded.
  assert (0 ≤ Z.quot ttl 4) as Hq by (apply Z.quot_pos; lia).
  assert (mulD (divD ttl 4) Second = Z.quot ttl 4 * Second) as ->.
  { unfold mulD, divD, Second in *.
    rewrite (wrap64_small (Z.quot ttl 4)) by (unfold int64_min, int64_max in *; lia).
    apply wrap64_small. unfold int64_min, int64_max in *. lia. }
  case_bool_decide as Hs.
  - symmetry. apply bool_decide_eq_true_2. by left.
  - destruct (Z.gtb_spec (Since now (lastCheck sc)) (Z.quot ttl 4 * Second)).
    + symmetry. apply bool_decide_eq_true_2. right. lia.
    + symmetry. apply bool_decide_eq_false_2. intros [?|?]; [done | lia].
Qed.

Lemma updateNeeded_small_ttl_witness :
  updateNeeded (Scenario.at_second 60)
               (set_lastStatus (set_lastCheck Scenario.webCheck (Scenario.at_second 0))
                               "passing")
               (Health.mkResult "" "" "" "passing" "ok") (20 * Second) =
  bool_decide (lastStatus (set_lastStatus
                             (set_lastCheck Scenario.webCheck (Scenario.at_second 0))
                             "passing")
                 ≠ Health.Status (Health.mkResult "" "" "" "passing" "ok") ∨
               Since (Scenario.at_second 60)
                     (lastCheck (set_lastStatus
                                   (set_lastCheck Scenario.webCheck
                                                  (Scenario.at_second 0))
                                   "passing"))
                 > Z.quot (20 * Second) 4 * Second).
Proof.
  apply updateNeeded_small_ttl.
  - by vm_compute.
  - by vm_compute.
Defined.

(** With a TTL of twenty seconds a minute without a change of status is
    not enough for a publish: the bound is five thousand million
    seconds. *)
Example updateNeeded_twenty_seconds :
  updateNeeded (Scenario.at_second 60)
               (set_lastStatus (set_lastCheck Scenario.webCheck (Scenario.at_second 0))
                               "passing")
               (Health.mkResult "" "" "" "passing" "ok") (20 * Second) = false.
Proof. vm_compute. reflexivity. Qed.

(** [resultFromCheck] never leaves the status empty. *)
Lemma resultFromCheck_status_set resp err :
  Health.Status (resultFromCheck resp err).1 ≠ "".
Proof.
  destruct err as [e|]; [by destruct resp|].
  destruct resp as [resp|]; [|done].
  rewrite resultFromCheck_status. by case_bool_decide.
Qed.

(** So a checker whose last status is empty always finds an update
    needed, whatever the clock and the TTL. *)
Lemma checkHealth_first env store sc :
  lastStatus sc = "" →
  storeAfter (checkHealth env store sc) =
  store ++ match recordOf sc env with Some r => [r] | None => [] end.
Proof.
  intros Hlast. unfold checkHealth, recordOf.
  destruct (Check (network env) sc) as [resp err]. cbn [fst snd].
  pose proof (resultFromCheck_status_set resp err) as Hset.
  destruct (resultFromCheck resp err) as [res [e|]]; cbn [fst] in Hset.
  { by rewrite app_nil_r. }
  unfold updateNeeded. rewrite stamped_status, Hlast.
  rewrite bool_decide_eq_true_2 by done.
  unfold writeToConsul, Kp.PutHealth.
  destruct (putAnswer env) as [t [e|]]; reflexivity.
Qed.

(** A monitor started with an empty last status, as [updatePods] starts
    them, publishes at every health check whose probe gives a result,
    however short the time since the one before and whatever became of
    the puts: after any number of checks the store has grown by the
    record of each, in order, and the checker is still the one the
    monitor was started with. *)
Theorem MonitorHealth_publishes_every_check (envs : list TickEnv) store sc :
  lastStatus sc = "" →
  MonitorHealth (TimerFired <$> envs) store sc =
  Selecting (store ++ omap (recordOf sc) envs) sc.
Proof.
  intros Hlast. revert store. induction envs as [|env envs IH]; intros store.
  - cbn. by rewrite app_nil_r.
  - cbn [fmap list_fmap MonitorHealth loopBody].
    rewrite IH, checkHealth_first by done. cbn [omap list_omap].
    rewrite <- app_assoc. by destruct (recordOf sc env).
Qed.

Lemma MonitorHealth_publishes_every_check_witness :
  MonitorHealth (TimerFired <$> [Scenario.tickOk 1; Scenario.tickPutFails 2;
                                 Scenario.tickOk 3])
                [] Scenario.webCheck =
  Selecting ([] ++ omap (recordOf Scenario.webCheck)
                        [Scenario.tickOk 1; Scenario.tickPutFails 2;
                         Scenario.tickOk 3])
            Scenario.webCheck.
Proof.
  apply MonitorHealth_publishes_every_check. reflexivity.
Defined.

End Checks.

(** ** The supervisor: what one reconciliation does, and two in a row *)

Section Reconciliation.

Import Watch.

Implicit Types (pod : PodWatch) (man : Kp.ManifestResult).
Implicit Types (current pods : list PodWatch) (reality : list Kp.ManifestResult).
Implicit Types (w : World).

(** The second pass in full: what it appends, what it starts, and the
    channels it makes. *)
Lemma addPass_structure client node lg reality w pods :
  ∃ added,
    (addPass client node lg reality w pods).2 = pods ++ added ∧
    started (addPass client node lg reality w pods).1 =
      started w ++ (goroutineOf client node <$> added) ∧
    sent (addPass client node lg reality w pods).1 = sent w ∧
    warnings (addPass client node lg reality w pods).1 = warnings w ∧
    shutdownCh <$> added = seq (nextChan w) (length added) ∧
    Forall (λ pod, (podId pod ∉ podId <$> pods) ∧ logger pod = lg ∧
                   Pods.StatusPort (manifest pod) ≠ 0 ∧
                   ∃ man, man ∈ reality ∧ manifest pod = Kp.Manifest man)
           added.
Proof.
  revert w pods. induction reality as [|man rest IH]; intros w pods.
  - exists []. cbn. by rewrite !app_nil_r.
  - destruct (addPass_cons client node lg man rest w pods)
      as [(Hfresh & Hport & ->) | (_ & ->)].
    + destruct (IH (worldWith client node lg w man) (pods ++ [newPodOf lg w man]))
        as (added & -> & -> & -> & -> & Hch & Hall).
      exists (newPodOf lg w man :: added).
      split; [by rewrite <- app_assoc|].
      split; [cbn; by rewrite <- app_assoc|].
      split; [done|]. split; [done|].
      split; [cbn in *; by rewrite Hch|].
      constructor.
      * split; [done|]. split; [done|]. split; [done|].
        exists man. split; [by left | done].
      * eapply Forall_impl; [exact Hall|].
        intros pod (Hnot & Hlg & Hp & man' & Hin & Hm).
        rewrite fmap_app, not_elem_of_app in Hnot. destruct Hnot as [Hnot _].
        split; [done|]. split; [done|]. split; [done|].
        exists man'. split; [by right | done].
    + destruct (IH w pods) as (added & -> & -> & -> & -> & Hch & Hall).
      exists added. repeat (split; [done|]).
      eapply Forall_impl; [exact Hall|].
      intros pod (Hnot & Hlg & Hp & man' & Hin & Hm).
      repeat (split; [done|]). exists man'. split; [by right | done].
Qed.

Lemma filter_listed reality current :
  filter (λ pod, inReality reality pod) current =
  filter (λ pod, podId pod ∈ listedId <$> reality) current.
Proof.
  apply list_filter_iff. intros pod. rewrite <- inReality_true.
  by destruct (inReality reality pod).
Qed.

Lemma filter_unlisted reality current :
  filter (λ pod, ¬ inReality reality pod) current =
  filter (λ pod, podId pod ∉ listedId <$> reality) current.
Proof.
  apply list_filter_iff. intros pod. rewrite <- inReality_true.
  destruct (inReality reality pod); cbn; intuition congruence.
Qed.

(** [updatePods] sends [true], and nothing else, on the channels of the
    watches whose id is not listed, once for each and in their order; it
    sends on no channel of a watch it keeps or makes, and logs nothing. *)
Theorem updatePods_signals client current reality node lg w :
  sent (updatePods client current reality node lg w).1 =
    sent w ++ ((λ pod, (shutdownCh pod, true)) <$>
               filter (λ pod, podId pod ∉ listedId <$> reality) current) ∧
  warnings (updatePods client current reality node lg w).1 = warnings w.
Proof.
  rewrite updatePods_eq.
  destruct (addPass_structure client node lg reality
              (killPass reality current w []).1 (killPass reality current w []).2)
    as (added & _ & _ & -> & -> & _).
  rewrite killPass_world. cbn [sent warnings]. by rewrite filter_unlisted.
Qed.

(** [updatePods] returns the watches it keeps, those of [current] whose
    id is listed, as they are and in their order, followed by the
    watches it makes. Each of these is for a listed manifest with a
    status port whose id had no watch, carries the logger, and has a
    channel of its own, newly made; and for each, in order, one
    goroutine is started on that channel, with a checker named after the
    manifest's id, for the node, probing <node>:<port> over HTTPS or HTTP
    as the manifest says, with the zero time and the empty status. *)
Theorem updatePods_starts client current reality node lg w :
  ∃ added,
    (updatePods client current reality node lg w).2 =
      filter (λ pod, podId pod ∈ listedId <$> reality) current ++ added ∧
    started (updatePods client current reality node lg w).1 =
      started w ++ (goroutineOf client node <$> added) ∧
    shutdownCh <$> added = seq (nextChan w) (length added) ∧
    Forall (λ pod, (podId pod ∉ podId <$> current) ∧ logger pod = lg ∧
                   Pods.StatusPort (manifest pod) ≠ 0 ∧
                   ∃ man, man ∈ reality ∧ manifest pod = Kp.Manifest man)
           added.
Proof.
  rewrite updatePods_eq.
  destruct (addPass_structure client node lg reality
              (killPass reality current w []).1 (killPass reality current w []).2)
    as (added & -> & -> & _ & _ & Hch & Hall).
  rewrite killPass_world, killPass_pods in *. cbn [app started nextChan] in *.
  exists added. rewrite filter_listed in *. repeat (split; [done|]).
  eapply Forall_impl; [exact Hall|].
  intros pod (Hnot & Hlg & Hp & man & Hin & Hm).
  split; [|by eauto].
  intros Hpod. apply Hnot.
  apply list_elem_of_fmap_1 in Hpod as (pod' & Heq & Hin').
  rewrite Heq. apply list_elem_of_fmap_2, list_elem_of_filter. split; [|done].
  rewrite <- Heq. unfold podId. rewrite Hm.
  by apply (list_elem_of_fmap_2 listedId).
Qed.

(** The checker of a started goroutine probes the node at the manifest's
    status port, over HTTPS when the manifest's StatusHTTP is set and over
    HTTP when it is not. *)
Lemma Check_checkerOf net client node m :
  Check net (checkerOf client node m) =
  net (Pods.StatusHTTP m) client (node +:+ ":" +:+ pretty (Pods.StatusPort m)).
Proof. unfold Check, checkerOf. cbn. by destruct (Pods.StatusHTTP m). Qed.

(** A watch whose id stays listed is kept as it is, with its channel and
    with the manifest it was made for, whatever manifest the listing now
    shows under that id; nothing is sent on its channel, and no goroutine
    is started for its id. *)
Theorem updatePods_keeps_watch client current reality node lg w pod :
  pod ∈ current → podId pod ∈ listedId <$> reality →
  pod ∈ (updatePods client current reality node lg w).2 ∧
  (∃ new, sent (updatePods client current reality node lg w).1 = sent w ++ new ∧
          ∀ ch v, (ch, v) ∈ new →
                  ∃ pod', pod' ∈ current ∧ ch = shutdownCh pod' ∧
                          podId pod' ≠ podId pod) ∧
  (∃ new, started (updatePods client current reality node lg w).1 =
            started w ++ new ∧
          Forall (λ g, podId (gPod g) ≠ podId pod) new).
Proof.
  intros Hin Hlisted. rewrite updatePods_eq.
  destruct (addPass_structure client node lg reality
              (killPass reality current w []).1 (killPass reality current w []).2)
    as (added & -> & -> & -> & _ & _ & Hall).
  rewrite killPass_world, killPass_pods in *. cbn [app started sent] in *.
  assert (pod ∈ filter (λ pod, inReality reality pod) current) as Hkept.
  { apply list_elem_of_filter. split; [|done].
    apply Is_true_eq_left. by apply inReality_true. }
  split; [apply elem_of_app; by left|]. split.
  - eexists. split; [done|]. intros ch v Hsent.
    apply list_elem_of_fmap_1 in Hsent as (pod' & [= -> ->] & Hpod').
    apply list_elem_of_filter in Hpod' as [Hun Hin'].
    exists pod'. split; [done|]. split; [done|].
    intros Heq. apply Hun. apply Is_true_eq_left, inReality_true.
    by rewrite Heq.
  - eexists. split; [done|]. apply Forall_fmap.
    eapply Forall_impl; [exact Hall|].
    intros pod' (Hnot & _). cbn. intros Heq. apply Hnot. rewrite Heq.
    by apply (list_elem_of_fmap_2 podId).
Qed.

Lemma updatePods_keeps_watch_witness :
  Scenario.webPod ∈
    (updatePods 3%nat [Scenario.webPod]
                [Kp.mkManifestResult (Pods.mkManifest "web" 9090 true)]
                "node1" 7%nat emptyWorld).2 ∧
  (∃ new, sent (updatePods 3%nat [Scenario.webPod]
                  [Kp.mkManifestResult (Pods.mkManifest "web" 9090 true)]
                  "node1" 7%nat emptyWorld).1 = sent emptyWorld ++ new ∧
          ∀ ch v, (ch, v) ∈ new →
                  ∃ pod', pod' ∈ [Scenario.webPod] ∧ ch = shutdownCh pod' ∧
                          podId pod' ≠ podId Scenario.webPod) ∧
  (∃ new, started (updatePods 3%nat [Scenario.webPod]
                     [Kp.mkManifestResult (Pods.mkManifest "web" 9090 true)]
                     "node1" 7%nat emptyWorld).1 = started emptyWorld ++ new ∧
          Forall (λ g, podId (gPod g) ≠ podId Scenario.webPod) new).
Proof.
  apply (updatePods_keeps_watch 3%nat [Scenario.webPod]
           [Kp.mkManifestResult (Pods.mkManifest "web" 9090 true)]
           "node1" 7%nat emptyWorld Scenario.webPod).
  - by left.
  - cbn. by left.
Defined.

(** Every goroutine [updatePods] starts listens on the channel of the
    watch it was started for, and runs a checker with that watch's
    manifest id as ID, the node as Node and an empty last status, which
    probes <node>:<status port> through [kp.HttpsStatusCheck] when the
    manifest's StatusHTTP is set and through [kp.HttpStatusCheck] when it
    is not. *)
Theorem updatePods_goroutines client current reality node lg w :
  ∃ new,
    started (updatePods client current reality node lg w).1 = started w ++ new ∧
    Forall (λ g,
              gShutdown g = shutdownCh (gPod g) ∧
              ID (gCheck g) = podId (gPod g) ∧
              Node (gCheck g) = node ∧
              lastStatus (gCheck g) = "" ∧
              ∀ net, Check net (gCheck g) =
                     net (Pods.StatusHTTP (manifest (gPod g))) client
                         (node +:+ ":" +:+
                          pretty (Pods.StatusPort (manifest (gPod g)))))
           new.
Proof.
  rewrite updatePods_eq.
  destruct (addPass_structure client node lg reality
              (killPass reality current w []).1 (killPass reality current w []).2)
    as (added & _ & -> & _).
  rewrite killPass_world. cbn [started].
  eexists. split; [done|]. apply Forall_fmap, Forall_forall.
  intros pod _. cbn. repeat (split; [done|]).
  intros net. apply Check_checkerOf.
Qed.

(** *** Reconciling twice *)

(** The first pass leaves a set alone whose ids are all listed. *)
Lemma killPass_all_listed reality pods w acc :
  Forall (λ pod, podId pod ∈ listedId <$> reality) pods →
  killPass reality pods w acc = (w, acc ++ pods).
Proof.
  revert acc. induction pods as [|pod rest IH]; intros acc Hall.
  - cbn. by rewrite app_nil_r.
  - apply Forall_cons in Hall as [Hpod Hall]. cbn [killPass].
    apply inReality_true in Hpod. rewrite Hpod, IH by done.
    by rewrite <- app_assoc.
Qed.

(** The second pass leaves a set alone that has a watch for every listed
    id with a status port. *)
Lemma addPass_all_covered client node lg reality w pods :
  Forall (λ man, Pods.StatusPort (Kp.Manifest man) ≠ 0 →
                 listedId man ∈ podId <$> pods) reality →
  addPass client node lg reality w pods = (w, pods).
Proof.
  induction reality as [|man rest IH]; intros Hall; [done|].
  apply Forall_cons in Hall as [Hman Hall].
  destruct (addPass_cons client node lg man rest w pods)
    as [(Hfresh & Hport & _) | (_ & ->)]; [|by apply IH].
  by destruct Hfresh; apply Hman.
Qed.

(** Reconciling again against the same listing changes nothing: handed
    the set it returned and the listing it returned it for, [updatePods]
    returns that set, sends nothing, starts nothing and makes no
    channel. *)
Theorem updatePods_again client current reality node lg w w' :
  updatePods client (updatePods client current reality node lg w).2
             reality node lg w' =
  (w', (updatePods client current reality node lg w).2).
Proof.
  rewrite (updatePods_eq client (updatePods client current reality node lg w).2).
  rewrite killPass_all_listed.
  - cbn [fst snd app]. apply addPass_all_covered.
    apply Forall_forall. intros man Hin Hport. by apply updatePods_covers.
  - apply Forall_forall. intros pod. apply updatePods_only_listed.
Qed.

(** *** The supervisor's loop *)

Lemma pollLoop_polls listings events client node lg w pods :
  pollLoop ((PollFired <$> listings) ++ events) client node lg w pods =
  pollLoop events client node lg
           (supervise listings client node lg w pods).1
           (supervise listings client node lg w pods).2.
Proof.
  revert w pods. induction listings as [|listing rest IH]; intros w pods; [done|].
  cbn [fmap list_fmap app pollLoop supervise].
  destruct (updateHealthMonitors listing client pods node lg w) as [w1 pods1].
  apply IH.
Qed.

(** On its shutdown channel [MonitorPodHealth] returns and takes up
    nothing further. It returns as the last listing left it: it sends
    nothing to the monitors of the watches it holds, whose channels have
    never been sent on. *)
Theorem MonitorPodHealth_shutdown config lg client first listings later :
  GetStore config = None → GetClient config = inl client →
  MonitorPodHealth config lg first ((PollFired <$> listings) ++ Shutdown :: later)
                   emptyWorld =
    Left (supervise (first :: listings) client (NodeName config) lg emptyWorld []).1
         (supervise (first :: listings) client (NodeName config) lg emptyWorld []).2 ∧
  Forall (λ pod,
            shutdownCh pod ∉
            (sent (supervise (first :: listings) client (NodeName config) lg
                             emptyWorld []).1).*1)
         (supervise (first :: listings) client (NodeName config) lg emptyWorld []).2.
Proof.
  intros Hstore Hclient. split.
  - unfold MonitorPodHealth. rewrite Hstore, Hclient. cbn [supervise].
    destruct (updateHealthMonitors first client [] (NodeName config) lg emptyWorld)
      as [w1 pods1].
    by rewrite pollLoop_polls.
  - assert (channels_ok emptyWorld []) as Hok.
    { repeat split; cbn; constructor. }
    destruct (supervise_channels_ok (first :: listings) client (NodeName config)
                lg _ _ Hok) as (_ & Hpods & _ & _).
    eapply Forall_impl; [exact Hpods|]. by intros pod [_ ?].
Qed.

Lemma MonitorPodHealth_shutdown_witness :
  MonitorPodHealth (mkPreparerConfig None (inl 3%nat) "node1") 7%nat
                   (Scenario.webListing, None)
                   ((PollFired <$> [(Scenario.webListing, None)])
                    ++ Shutdown :: [PollFired ([], None)])
                   emptyWorld =
    Left (supervise ((Scenario.webListing, None) :: [(Scenario.webListing, None)])
                    3%nat (NodeName (mkPreparerConfig None (inl 3%nat) "node1"))
                    7%nat emptyWorld []).1
         (supervise ((Scenario.webListing, None) :: [(Scenario.webListing, None)])
                    3%nat (NodeName (mkPreparerConfig None (inl 3%nat) "node1"))
                    7%nat emptyWorld []).2 ∧
  Forall (λ pod,
            shutdownCh pod ∉
            (sent (supervise ((Scenario.webListing, None)
                              :: [(Scenario.webListing, None)])
                             3%nat
                             (NodeName (mkPreparerConfig None (inl 3%nat) "node1"))
                             7%nat emptyWorld []).1).*1)
         (supervise ((Scenario.webListing, None) :: [(Scenario.webListing, None)])
                    3%nat (NodeName (mkPreparerConfig None (inl 3%nat) "node1"))
                    7%nat emptyWorld []).2.
Proof.
  apply (MonitorPodHealth_shutdown (mkPreparerConfig None (inl 3%nat) "node1")
                                   7%nat 3%nat);
    reflexivity.
Defined.

Example MonitorPodHealth_shutdown_web :
  MonitorPodHealth (mkPreparerConfig None (inl 3%nat) "node1") 7%nat
                   (Scenario.webListing, None) [Shutdown] emptyWorld =
  Left (mkWorld 1%nat []
                [mkGoroutine Scenario.webPod Scenario.webCheck 0%nat] [])
       [Scenario.webPod].
Proof. vm_compute. reflexivity. Qed.

(** Whatever the configuration, the listings and the moment of shutdown,
    the set [MonitorPodHealth] holds has no two watches of one manifest
    id and no two watches on one channel, and no channel has been sent on
    twice: the one place of a shutdown channel is free whenever the
    supervisor sends on it. Without a store or an HTTP client it stops
    before the first listing. *)
Theorem MonitorPodHealth_invariant config lg first events :
  match MonitorPodHealth config lg first events emptyWorld with
  | Fatal _ => is_Some (GetStore config) ∨ ∃ e, GetClient config = inr e
  | Left w pods | Polling w pods =>
      NoDup (podId <$> pods) ∧
      NoDup (shutdownCh <$> pods) ∧
      NoDup (sent w).*1
  end.
Proof.
  unfold MonitorPodHealth.
  destruct (GetStore config) as [e|]; [by left; eexists|].
  destruct (GetClient config) as [client|e]; [|right; by eexists].
  assert (channels_ok emptyWorld []) as Hok.
  { repeat split; cbn; constructor. }
  assert (NoDup (podId <$> ([] : list PodWatch))) as Hnd by constructor.
  pose proof (updateHealthMonitors_channels_ok first client []
                (NodeName config) lg emptyWorld Hok) as Hok1.
  pose proof (updateHealthMonitors_NoDup first client []
                (NodeName config) lg emptyWorld Hnd) as Hnd1.
  destruct (updateHealthMonitors first client [] (NodeName config) lg emptyWorld)
    as [w pods]. cbn [fst snd] in *. clear Hok Hnd.
  revert w pods Hok1 Hnd1.
  induction events as [|[listing|] rest IH]; intros w pods Hok Hnd;
    cbn [pollLoop].
  - destruct Hok as (? & _ & ? & _). done.
  - pose proof (updateHealthMonitors_channels_ok listing client pods
                  (NodeName config) lg w Hok) as Hok1.
    pose proof (updateHealthMonitors_NoDup listing client pods
                  (NodeName config) lg w Hnd) as Hnd1.
    destruct (updateHealthMonitors listing client pods (NodeName config) lg w)
      as [w1 pods1].
    by apply IH.
  - destruct Hok as (? & _ & ? & _). done.
Qed.

End Reconciliation.
